(** * The Agent component and the root layout of the mock-interview app

    A shallow embedding of [app/(root)/layout.tsx] (the server-side [Layout]
    and the client-side [Agent] component that adapts the voice SDK's event
    stream to React state), followed by the properties of the specification
    that can be stated over it. *)

From Stdlib Require Import NArith Ascii String.
From stdpp Require Import base decidable option list pretty.

Set Default Proof Using "Type".

(** ** JavaScript strings

    A JavaScript string is a sequence of UTF-16 code units.  The string
    literals of the source, all of them ASCII, are written [lit "..."]. *)

Module JsString.

Definition code_unit : Type := N.
Definition jsstring : Type := list code_unit.

Definition lit (s : string) : jsstring :=
  map N_of_ascii (list_ascii_of_string s).
Arguments lit s%_string.

(** ECMAScript [WhiteSpace] and [LineTerminator] code points, the ones
    [String.prototype.trim] strips.  All of them are single code units. *)
Definition isWhiteSpace (c : code_unit) : bool :=
  (bool_decide (c ∈ [0x0009; 0x000A; 0x000B; 0x000C; 0x000D; 0x0020; 0x00A0;
                     0x1680; 0x2028; 0x2029; 0x202F; 0x205F; 0x3000; 0xFEFF]%N)
   || ((0x2000 <=? c) && (c <=? 0x200A)))%N.

Fixpoint trimStart (s : jsstring) : jsstring :=
  match s with
  | [] => []
  | c :: r => if isWhiteSpace c then trimStart r else s
  end.

Definition trimEnd (s : jsstring) : jsstring := reverse (trimStart (reverse s)).

(** [s.trim()] *)
Definition trim (s : jsstring) : jsstring := trimEnd (trimStart s).

Definition empty : jsstring := [].
Definition newline : jsstring := [0x000A%N].

(** Truthiness of a string value: only the empty string is falsy. *)
Definition truthy (s : jsstring) : bool :=
  match s with [] => false | _ :: _ => true end.

(** [l.join(sep)] *)
Fixpoint join (sep : jsstring) (l : list jsstring) : jsstring :=
  match l with
  | [] => []
  | [x] => x
  | x :: r => x ++ sep ++ join sep r
  end.

(** A value interpolated in a template literal: [undefined] prints as the
    nine letters of its name. *)
Definition interpolate (o : option jsstring) : jsstring :=
  default (lit "undefined") o.

(** No white space at either end. *)
Definition trimmed (s : jsstring) : Prop :=
  (∀ c, head s = Some c → isWhiteSpace c = false) ∧
  (∀ c, last s = Some c → isWhiteSpace c = false).

End JsString.
Import JsString.

(** ** Data model *)

(** [enum CallStatus]: a string enumeration, so the state holds one of these
    four strings at run time. *)
Module CallStatus.
Definition INACTIVE : jsstring := lit "INACTIVE".
Definition CONNECTING : jsstring := lit "CONNECTING".
Definition ACTIVE : jsstring := lit "ACTIVE".
Definition FINISHED : jsstring := lit "FINISHED".

Definition values : list jsstring := [INACTIVE; CONNECTING; ACTIVE; FINISHED].
End CallStatus.

(** [interface SavedMessage]; the role is one of the string literals
    ["user"], ["system"], ["assistant"]. *)
Record SavedMessage : Type := mkSavedMessage {
  role : jsstring;
  content : jsstring
}.

(** [type VapiMessage]: every field is optional. *)
Record VapiMessage : Type := mkVapiMessage {
  msg_type : option jsstring;
  msg_transcriptType : option jsstring;
  msg_transcript : option jsstring;
  msg_role : option jsstring
}.

(** [type AgentProps]: every prop is optional. *)
Record AgentProps : Type := mkAgentProps {
  userName : option jsstring;
  userId : option jsstring;
  interviewId : option jsstring;
  feedbackId : option jsstring;
  type : option jsstring;
  questions : option (list jsstring)
}.

(** What [vapi.start] receives as its first argument: the workflow id (a
    string) or the [interviewer] constant imported from [@/constants], which
    is an id string, an assistant object, or absent. *)
Inductive Flow : Type :=
  | FlowUndefined
  | FlowId (id : jsstring)
  | FlowAssistant.

(** [!flowId] is false exactly on a non-empty string or an object. *)
Definition flow_truthy (f : Flow) : bool :=
  match f with
  | FlowUndefined => false
  | FlowId id => truthy id
  | FlowAssistant => true
  end.

(** What the module reads from outside the component: the build-time
    environment variable and the imported constant. *)
Record Env : Type := mkEnv {
  NEXT_PUBLIC_VAPI_WORKFLOW_ID : option jsstring;
  interviewer : Flow
}.

(** An error value, as far as [onError] and the [catch] of [handleCall]
    inspect it. *)
Inductive Thrown : Type :=
  | Falsy                 (* [error &&] fails *)
  | IsResponse            (* [error instanceof Response] *)
  | HasResponse           (* [error.error instanceof Response] *)
  | OtherError.           (* any other truthy value *)

(** How an awaited promise settles. *)
Inductive Settled (A : Type) : Type :=
  | Resolved (a : A)
  | Rejected (e : Thrown).
Arguments Resolved {A} a.
Arguments Rejected {A} e.

(** The object [createFeedback] resolves to. *)
Record FeedbackResult : Type := mkFeedbackResult {
  success : bool;
  result_feedbackId : option jsstring
}.

(** The argument of [createFeedback]. *)
Record CreateFeedbackParams : Type := mkCreateFeedbackParams {
  cf_interviewId : option jsstring;
  cf_userId : option jsstring;
  cf_transcript : list SavedMessage;
  cf_feedbackId : option jsstring
}.

(** The six listeners the component defines in its first effect. *)
Inductive HandlerId : Type :=
  | OnCallStart | OnCallEnd | OnMessage | OnSpeechStart | OnSpeechEnd | OnError.

(** The second argument of a [console.error] call. *)
Inductive LogArg : Type :=
  | ArgNone
  | ArgError (e : Thrown)
  | ArgText (s : jsstring).

(** Calls that leave the component, in the order they are made. *)
Inductive Action : Type :=
  | ConsoleLog (text : jsstring)
  | ConsoleError (text : jsstring) (arg : LogArg)
  | VapiOn (event : jsstring) (h : HandlerId)
  | VapiOff (event : jsstring) (h : HandlerId)
  | VapiStart (flowId : Flow) (variableValues : list (jsstring * jsstring))
  | VapiStop
  | ResponseText (nested : bool)
  | RouterPush (href : jsstring)
  | CreateFeedback (params : CreateFeedbackParams).

(** The four [useState] cells of the component. *)
Record AgentState : Type := mkAgentState {
  callStatus : jsstring;
  messages : list SavedMessage;
  isSpeaking : bool;
  lastMessage : jsstring
}.

Global Instance SavedMessage_eq_dec : EqDecision SavedMessage.
Proof. solve_decision. Defined.
Global Instance Flow_eq_dec : EqDecision Flow.
Proof. solve_decision. Defined.
Global Instance Thrown_eq_dec : EqDecision Thrown.
Proof. solve_decision. Defined.
Global Instance HandlerId_eq_dec : EqDecision HandlerId.
Proof. solve_decision. Defined.
Global Instance LogArg_eq_dec : EqDecision LogArg.
Proof. solve_decision. Defined.
Global Instance CreateFeedbackParams_eq_dec : EqDecision CreateFeedbackParams.
Proof. solve_decision. Defined.
Global Instance Action_eq_dec : EqDecision Action.
Proof. solve_decision. Defined.
Global Instance AgentState_eq_dec : EqDecision AgentState.
Proof. solve_decision. Defined.

(** The values [useState] is given at mount. *)
Definition initialState : AgentState :=
  {| callStatus := CallStatus.INACTIVE; messages := []; isSpeaking := false;
     lastMessage := empty |}.

(** ** Handlers

    A handler is a piece of synchronous code: it updates the state cells and
    makes outside calls.  State updates made in one handler are applied in
    order and rendered together. *)

Definition Handler : Type := AgentState → AgentState * list Action.

Definition skip : Handler := λ s, (s, []).

Definition andThen (h k : Handler) : Handler := λ s,
  let '(s1, a1) := h s in
  let '(s2, a2) := k s1 in
  (s2, a1 ++ a2).

Infix ">>" := andThen (at level 75, right associativity).

Definition call (a : Action) : Handler := λ s, (s, [a]).

Definition setCallStatus (v : jsstring) : Handler := λ s,
  ({| callStatus := v; messages := messages s; isSpeaking := isSpeaking s;
      lastMessage := lastMessage s |}, []).

Definition setMessages (f : list SavedMessage → list SavedMessage) : Handler := λ s,
  ({| callStatus := callStatus s; messages := f (messages s);
      isSpeaking := isSpeaking s; lastMessage := lastMessage s |}, []).

Definition setIsSpeaking (b : bool) : Handler := λ s,
  ({| callStatus := callStatus s; messages := messages s; isSpeaking := b;
      lastMessage := lastMessage s |}, []).

(** [last && last === trimmed], where [last] may be [undefined]. *)
Definition same_as_last (last : option jsstring) (trimmed : jsstring) : bool :=
  match last with
  | Some l => truthy l && bool_decide (l = trimmed)
  | None => false
  end.

Section Agent.

Context (env : Env) (props : AgentProps).

Definition WORKFLOW_ID : jsstring :=
  default empty (NEXT_PUBLIC_VAPI_WORKFLOW_ID env).

(** [type === "generate"] *)
Definition is_generate : bool := bool_decide (type props = Some (lit "generate")).

(** *** Listeners of the first effect *)

Definition onCallStart : Handler := setCallStatus CallStatus.ACTIVE.

Definition onCallEnd : Handler := setCallStatus CallStatus.FINISHED.

(** [message] is [None] for an event without payload, on which every
    [message?.field] is [undefined]; [typeof message?.transcript === "string"]
    holds when the field is present. *)
Definition onMessage (message : option VapiMessage) : Handler :=
  match message with
  | Some m =>
      if bool_decide (msg_type m = Some (lit "transcript"))
         && bool_decide (msg_transcriptType m = Some (lit "final"))
      then
        match msg_transcript m with
        | Some transcript =>
            let trimmed := trim transcript in
            setMessages (λ prev,
              let last := (λ x, trim (content x)) <$> last prev in
              if same_as_last last trimmed then prev
              else prev ++ [ {| role := default (lit "assistant") (msg_role m);
                                content := trimmed |} ])
        | None => skip
        end
      else skip
  | None => skip
  end.

Definition onSpeechStart : Handler :=
  call (ConsoleLog (lit "speech start")) >> setIsSpeaking true.

Definition onSpeechEnd : Handler :=
  call (ConsoleLog (lit "speech end")) >> setIsSpeaking false.

(** [onError] up to its first [await]; on an error that is no [Response]
    there is no [await] and the handler runs to its end. *)
Definition onError (error : Thrown) : Handler :=
  call (ConsoleError (lit "Vapi error event:") (ArgError error)) >>
  match error with
  | IsResponse => call (ResponseText false)
  | HasResponse => call (ResponseText true)
  | Falsy | OtherError => setCallStatus CallStatus.INACTIVE
  end.

(** [onError] from the point where [text()] settles. *)
Definition onError_resume (nested : bool) (r : Settled jsstring) : Handler :=
  match r with
  | Resolved text =>
      call (ConsoleError
              (if nested then lit "Vapi response body (nested):"
               else lit "Vapi response body:") (ArgText text))
  | Rejected ex =>
      call (ConsoleError (lit "Error reading Vapi error body:") (ArgError ex))
  end >>
  setCallStatus CallStatus.INACTIVE.

(** *** [handleCall] *)

(** [const flowId = type === "generate" ? WORKFLOW_ID : interviewer] *)
Definition flowId : Flow :=
  if is_generate then FlowId WORKFLOW_ID else interviewer env.

(** [handleCall] up to [await vapi.start(...)]. *)
Definition handleCall : Handler :=
  setCallStatus CallStatus.CONNECTING >>
  if negb (flow_truthy flowId) then
    call (ConsoleError
            (lit "No workflow/assistant id provided. Check NEXT_PUBLIC_VAPI_WORKFLOW_ID or interviewer constant.")
            ArgNone) >>
    setCallStatus CallStatus.INACTIVE
  else if is_generate then
    call (VapiStart flowId
            [ (lit "username", default empty (userName props));
              (lit "userid", default empty (userId props)) ])
  else
    let formattedQuestions :=
      join newline (map (λ q, lit "- " ++ q) (default [] (questions props))) in
    call (VapiStart flowId [ (lit "questions", formattedQuestions) ]).

(** The [catch] of [handleCall], entered when [vapi.start] fails, up to its
    own [await]. *)
Definition handleCall_catch (e : Thrown) : Handler :=
  call (ConsoleError (lit "vapi.start threw:") (ArgError e)) >>
  match e with
  | IsResponse => call (ResponseText false)
  | HasResponse => call (ResponseText true)
  | Falsy | OtherError => setCallStatus CallStatus.INACTIVE
  end.

Definition handleCall_catch_resume (nested : bool) (r : Settled jsstring) : Handler :=
  match r with
  | Resolved text =>
      call (ConsoleError
              (if nested then lit "Server response (nested):"
               else lit "Server response:") (ArgText text))
  | Rejected ex =>
      call (ConsoleError (lit "Failed reading thrown error body:") (ArgError ex))
  end >>
  setCallStatus CallStatus.INACTIVE.

(** *** [handleDisconnect]; [stop] is [Some err] when [vapi.stop()] throws
    [err]. *)
Definition handleDisconnect (stop : option Thrown) : Handler :=
  setCallStatus CallStatus.FINISHED >>
  call VapiStop >>
  match stop with
  | None => skip
  | Some err =>
      call (ConsoleError (lit "Error stopping vapi:") (ArgError err)) >>
      setCallStatus CallStatus.INACTIVE
  end.

(** *** The second effect *)

(** The argument [handleGenerateFeedback] builds for [createFeedback]. *)
Definition feedback_params (messages : list SavedMessage) : CreateFeedbackParams :=
  {| cf_interviewId := interviewId props;
     cf_userId := userId props;
     cf_transcript := messages;
     cf_feedbackId := feedbackId props |}.

(** [handleGenerateFeedback] up to [await createFeedback(...)]. *)
Definition handleGenerateFeedback (messages : list SavedMessage) : list Action :=
  [ CreateFeedback (feedback_params messages) ].

(** [success && id] *)
Definition feedback_saved (r : FeedbackResult) : bool :=
  success r && from_option truthy false (result_feedbackId r).

Definition handleGenerateFeedback_resume (r : Settled FeedbackResult) : list Action :=
  match r with
  | Resolved res =>
      if feedback_saved res then
        [ RouterPush (lit "/interview/" ++ interpolate (interviewId props)
                        ++ lit "/feedback") ]
      else
        [ ConsoleLog (lit "Error saving feedback"); RouterPush (lit "/") ]
  | Rejected err =>
      [ ConsoleError (lit "createFeedback error:") (ArgError err);
        RouterPush (lit "/") ]
  end.

(** The body of the effect that depends on [messages] and [callStatus]. *)
Definition finishedDispatch (s : AgentState) : list Action :=
  if bool_decide (callStatus s = CallStatus.FINISHED) then
    if is_generate then [ RouterPush (lit "/") ]
    else handleGenerateFeedback (messages s)
  else [].

End Agent.

(** ** Event wiring

    The first effect registers the listeners on the SDK when the component
    mounts, and its cleanup removes them. *)

Definition eventWiring : list Action :=
  [ VapiOn (lit "call-start") OnCallStart;
    VapiOn (lit "call-end") OnCallEnd;
    VapiOn (lit "message") OnMessage;
    VapiOn (lit "speech-start") OnSpeechStart;
    VapiOn (lit "speech-end") OnSpeechEnd;
    VapiOn (lit "error") OnError ].

Definition eventWiring_cleanup : list Action :=
  [ VapiOff (lit "call-start") OnCallStart;
    VapiOff (lit "call-end") OnCallEnd;
    VapiOff (lit "message") OnMessage;
    VapiOff (lit "speech-start") OnSpeechStart;
    VapiOff (lit "speech-end") OnSpeechEnd;
    VapiOff (lit "error") OnError ].

(** The SDK is an event emitter: it keeps the registered listeners in the
    order they were added; [off] removes the most recently added matching
    registration. *)
Definition Listeners : Type := list (jsstring * HandlerId).

Fixpoint remove_first (x : jsstring * HandlerId) (l : Listeners) : Listeners :=
  match l with
  | [] => []
  | y :: r => if bool_decide (x = y) then r else y :: remove_first x r
  end.

Definition vapi_on (event : jsstring) (h : HandlerId) (l : Listeners) : Listeners :=
  l ++ [(event, h)].

Definition vapi_off (event : jsstring) (h : HandlerId) (l : Listeners) : Listeners :=
  reverse (remove_first (event, h) (reverse l)).

Definition sdk_apply (l : Listeners) (a : Action) : Listeners :=
  match a with
  | VapiOn event h => vapi_on event h l
  | VapiOff event h => vapi_off event h l
  | _ => l
  end.

(** The listeners after the first effect ran on a fresh emitter. *)
Definition wired : Listeners := foldl sdk_apply [] eventWiring.

(** What an [on] or an [off] call names. *)
Definition registration (a : Action) : option (jsstring * HandlerId) :=
  match a with VapiOn event h => Some (event, h) | _ => None end.

Definition unregistration (a : Action) : option (jsstring * HandlerId) :=
  match a with VapiOff event h => Some (event, h) | _ => None end.

(** The event names that have a listener. *)
Definition listened (l : Listeners) : list jsstring := remove_dups (l.*1).

(** What the SDK emits.  [EvOther] is an event emitted without an argument. *)
Inductive VapiEvent : Type :=
  | EvCallStart
  | EvCallEnd
  | EvMessage (message : option VapiMessage)
  | EvSpeechStart
  | EvSpeechEnd
  | EvError (error : Thrown)
  | EvOther (name : jsstring).

Definition event_name (e : VapiEvent) : jsstring :=
  match e with
  | EvCallStart => lit "call-start"
  | EvCallEnd => lit "call-end"
  | EvMessage _ => lit "message"
  | EvSpeechStart => lit "speech-start"
  | EvSpeechEnd => lit "speech-end"
  | EvError _ => lit "error"
  | EvOther name => name
  end.

Definition invoke (h : HandlerId) (e : VapiEvent) : Handler :=
  match h with
  | OnCallStart => onCallStart
  | OnCallEnd => onCallEnd
  | OnMessage => onMessage (match e with EvMessage m => m | _ => None end)
  | OnSpeechStart => onSpeechStart
  | OnSpeechEnd => onSpeechEnd
  | OnError => onError (match e with EvError err => err | _ => Falsy end)
  end.

(** [emit]: the listeners registered under the event's name run in
    registration order. *)
Fixpoint dispatch (l : Listeners) (e : VapiEvent) : Handler :=
  match l with
  | [] => skip
  | (name, h) :: r =>
      if bool_decide (name = event_name e) then invoke h e >> dispatch r e
      else dispatch r e
  end.

(** ** The mounted component

    One session is the life of one mounted [Agent].  Between two renders one
    of the following happens. *)
Inductive Op : Type :=
  | Emit (e : VapiEvent)                                  (* the SDK emits an event *)
  | ErrorBodySettled (nested : bool) (r : Settled jsstring) (* [onError] resumes *)
  | ClickCall                                             (* the Call button *)
  | StartSettled (r : Settled unit)                       (* [vapi.start] settles *)
  | CatchBodySettled (nested : bool) (r : Settled jsstring) (* the [catch] of [handleCall] resumes *)
  | ClickDisconnect (stop : option Thrown)                (* the End button *)
  | FeedbackSettled (r : Settled FeedbackResult).         (* [createFeedback] settles *)

Record World : Type := mkWorld {
  agent : AgentState;
  listeners : Listeners
}.

(** The button the render shows: Call unless the status is ACTIVE, End
    otherwise. *)
Definition clickable (s : AgentState) (op : Op) : bool :=
  match op with
  | ClickCall => negb (bool_decide (callStatus s = CallStatus.ACTIVE))
  | ClickDisconnect _ => bool_decide (callStatus s = CallStatus.ACTIVE)
  | _ => true
  end.

(** An SDK-emitted event, as opposed to a click or a settled promise. *)
Definition is_sdk_event (op : Op) : bool :=
  match op with Emit _ => true | _ => false end.

Section Session.

Context (env : Env) (props : AgentProps).

Definition perform (l : Listeners) (op : Op) : Handler :=
  match op with
  | Emit e => dispatch l e
  | ErrorBodySettled nested r => onError_resume nested r
  | ClickCall => handleCall env props
  | StartSettled (Resolved _) => skip
  | StartSettled (Rejected e) => handleCall_catch e
  | CatchBodySettled nested r => handleCall_catch_resume nested r
  | ClickDisconnect stop => handleDisconnect stop
  | FeedbackSettled r => λ s, (s, handleGenerateFeedback_resume props r)
  end.

(** After a render the second effect runs again when one of its
    dependencies changed; the props are fixed during a session, so these
    are [callStatus] and [messages].  An updater that returns [prev] keeps
    the array, and one that appends makes a longer one, so comparing the
    lists decides whether the array changed. *)
Definition rerender (before after : AgentState) : list Action :=
  if bool_decide (callStatus before = callStatus after
                  ∧ messages before = messages after)
  then []
  else finishedDispatch props after.

Definition step (w : World) (op : Op) : World * list Action :=
  let '(s', acts) := perform (listeners w) op (agent w) in
  ({| agent := s'; listeners := listeners w |}, acts ++ rerender (agent w) s').

(** Mounting: the state cells get their initial values and both effects
    run. *)
Definition mount : World * list Action :=
  ({| agent := initialState; listeners := wired |},
   eventWiring ++ finishedDispatch props initialState).

(** Teardown: the cleanup of the first effect runs. *)
Definition unmount (w : World) : World * list Action :=
  ({| agent := agent w; listeners := foldl sdk_apply (listeners w) eventWiring_cleanup |},
   eventWiring_cleanup).

Fixpoint run_from (w : World) (ops : list Op) : World * list Action :=
  match ops with
  | [] => (w, [])
  | op :: rest =>
      let '(w1, a1) := step w op in
      let '(w2, a2) := run_from w1 rest in
      (w2, a1 ++ a2)
  end.

(** A session: mount, then the operations in order. *)
Definition session (ops : list Op) : World * list Action :=
  let '(w0, a0) := mount in
  let '(w, a) := run_from w0 ops in
  (w, a0 ++ a).

(** The clicks of a sequence of operations hit a button that is shown. *)
Fixpoint feasible_from (w : World) (ops : list Op) : bool :=
  match ops with
  | [] => true
  | op :: rest => clickable (agent w) op && feasible_from (step w op).1 rest
  end.

Definition feasible (ops : list Op) : bool := feasible_from mount.1 ops.

End Session.

(** How often [createFeedback] is called in a trace, and with what. *)
Definition feedback_calls (tr : list Action) : list CreateFeedbackParams :=
  omap (λ a, match a with CreateFeedback p => Some p | _ => None end) tr.

(** ** The root layout

    [Layout] is an asynchronous server component.  The two actions of
    [@/lib/actions/auth.action] are outside calls whose results are given;
    [redirect] of the framework never returns: it throws, which ends the
    rendering of the component. *)

Module RootLayout.

Record User : Type := mkUser {
  user_id : jsstring;
  user_name : jsstring;
  user_email : jsstring
}.

Inductive ServerCall : Type :=
  | IsAuthenticated
  | GetCurrentUser
  | Redirect (href : jsstring).

(** [<div className="root-layout"><Navbar user={user} />{children}</div>] *)
Record View (Node : Type) : Type := mkView {
  className : jsstring;
  navbar_user : option User;
  rendered_children : Node
}.
Arguments mkView {Node}.
Arguments className {Node}.
Arguments navbar_user {Node}.
Arguments rendered_children {Node}.

(** A computation either returns a value or is cut short by a redirect;
    either way it has made some calls. *)
Inductive Completion (A : Type) : Type :=
  | Returns (a : A)
  | Redirects (href : jsstring).
Arguments Returns {A} a.
Arguments Redirects {A} href.

Definition Server (A : Type) : Type := Completion A * list ServerCall.

Global Instance Server_ret : MRet Server := λ A a, (Returns a, []).

Global Instance Server_bind : MBind Server := λ A B k m,
  match m with
  | (Returns a, calls) => let '(b, calls') := k a in (b, calls ++ calls')
  | (Redirects href, calls) => (Redirects href, calls)
  end.

Definition redirect {A} (href : jsstring) : Server A :=
  (Redirects href, [Redirect href]).

Section WithActions.

(** What the two authentication actions resolve to for this request. *)
Context (authenticated : bool) (currentUser : option User).

Definition isAuthenticated : Server bool := (Returns authenticated, [IsAuthenticated]).

Definition getCurrentUser : Server (option User) :=
  (Returns currentUser, [GetCurrentUser]).

Definition Layout {Node} (children : Node) : Server (View Node) :=
  isUserAuthenticated ← isAuthenticated;
  _ ← (if negb isUserAuthenticated then redirect (lit "/sign-in") else mret ());
  user ← getCurrentUser;
  mret {| className := lit "root-layout"; navbar_user := user;
          rendered_children := children |}.

End WithActions.

End RootLayout.

(** ** What the Agent renders

    The parts of the returned markup that depend on the state or the props:
    the speaking animation next to the avatar, the user's name, the transcript
    line, and the button below. *)

(** [<button className="relative btn-call">] with the class of its ping
    [<span>] and its label, or [<button className="btn-disconnect">End]. *)
Inductive CallButton : Type :=
  | CallBtn (ping_hidden : bool) (label : jsstring)
  | DisconnectBtn.

(** The [<p key=...>] of the transcript. *)
Record TranscriptLine : Type := mkTranscriptLine {
  line_key : jsstring;
  line_text : jsstring
}.

Record AgentView : Type := mkAgentView {
  speak_animation : bool;
  shown_userName : option jsstring;
  transcript_line : option TranscriptLine;
  call_button : CallButton
}.

Global Instance CallButton_eq_dec : EqDecision CallButton.
Proof. solve_decision. Defined.

(** A non-negative integer in a template literal. *)
Definition decimal (n : nat) : jsstring := lit (pretty n).

Section Render.

Context (props : AgentProps).

Definition render (s : AgentState) : AgentView :=
  {| speak_animation := isSpeaking s;
     shown_userName := userName props;
     transcript_line :=
       if bool_decide (0 < length (messages s)) then
         (λ last, {| line_key := content last ++ lit "-"
                                 ++ decimal (length (messages s) - 1);
                     line_text := content last |})
           <$> last (messages s)
       else None;
     call_button :=
       if negb (bool_decide (callStatus s = CallStatus.ACTIVE)) then
         CallBtn
           (negb (bool_decide (callStatus s = CallStatus.CONNECTING)))
           (if bool_decide (callStatus s = CallStatus.INACTIVE)
               || bool_decide (callStatus s = CallStatus.FINISHED)
            then lit "Call" else lit ". . .")
       else DisconnectBtn |}.

End Render.

(** ** The Navbar

    [components/Navbar.tsx]: two state cells for the profile dropdown and the
    mobile menu, and [handleSignOut].  Which of the desktop and the mobile
    markup is visible is decided by style sheets; both are rendered. *)

Module Navbar.

(** [useState(false)], twice. *)
Record State : Type := mkState {
  isProfileOpen : bool;
  isMobileMenuOpen : bool
}.

Definition initial : State :=
  {| isProfileOpen := false; isMobileMenuOpen := false |}.

Inductive Call : Type :=
  | SignOut
  | ToastSuccess (text : jsstring)
  | ToastError (text : jsstring)
  | Push (href : jsstring)
  | Refresh
  | LogError (text : jsstring) (error : Thrown).

Global Instance Call_eq_dec : EqDecision Call.
Proof. solve_decision. Defined.

(** [handleSignOut] up to [await signOut()]. *)
Definition handleSignOut : list Call := [SignOut].

(** [handleSignOut] from the point where [signOut()] settles. *)
Definition handleSignOut_resume (r : Settled unit) : list Call :=
  match r with
  | Resolved _ =>
      [ ToastSuccess (lit "Signed out successfully"); Push (lit "/sign-in"); Refresh ]
  | Rejected error =>
      [ LogError (lit "Sign out error:") error;
        ToastError (lit "Failed to sign out. Please try again.") ]
  end.

(** The elements of the markup that exist only under a condition. *)
Record View : Type := mkView {
  profile_button : option (jsstring * jsstring * bool);  (* name, email, chevron rotated *)
  profile_dropdown : option (jsstring * jsstring);       (* name, email; holds Sign Out *)
  mobile_avatar : bool;
  menu_icon_is_close : bool;
  mobile_menu : option (option (jsstring * jsstring) * bool)
    (* the profile block, and whether Sign Out is there *)
}.

Inductive Op : Type :=
  | ClickProfile                      (* the desktop profile button *)
  | ClickSignOut                      (* Sign Out of the dropdown *)
  | ClickMenu                         (* the mobile menu button *)
  | ClickMobileLink                   (* Home or Generate Interview of the mobile menu *)
  | ClickMobileSignOut                (* Sign Out of the mobile menu *)
  | SignOutSettled (r : Settled unit). (* [signOut()] settles *)

Section WithUser.

Context (user : option RootLayout.User).

Definition render (s : State) : View :=
  {| profile_button :=
       (λ u, (RootLayout.user_name u, RootLayout.user_email u, isProfileOpen s)) <$> user;
     profile_dropdown :=
       match user with
       | Some u =>
           if isProfileOpen s
           then Some (RootLayout.user_name u, RootLayout.user_email u)
           else None
       | None => None
       end;
     mobile_avatar := bool_decide (is_Some user);
     menu_icon_is_close := isMobileMenuOpen s;
     mobile_menu :=
       if isMobileMenuOpen s then
         Some ((λ u, (RootLayout.user_name u, RootLayout.user_email u)) <$> user,
               bool_decide (is_Some user))
       else None |}.

(** A click needs its element in the markup. *)
Definition clickable (s : State) (op : Op) : bool :=
  match op with
  | ClickProfile => bool_decide (is_Some (profile_button (render s)))
  | ClickSignOut => bool_decide (is_Some (profile_dropdown (render s)))
  | ClickMenu => true
  | ClickMobileLink => bool_decide (is_Some (mobile_menu (render s)))
  | ClickMobileSignOut =>
      match mobile_menu (render s) with
      | Some (_, sign_out) => sign_out
      | None => false
      end
  | SignOutSettled _ => true
  end.

Definition step (s : State) (op : Op) : State * list Call :=
  match op with
  | ClickProfile =>
      ({| isProfileOpen := negb (isProfileOpen s);
          isMobileMenuOpen := isMobileMenuOpen s |}, [])
  | ClickSignOut => (s, handleSignOut)
  | ClickMenu =>
      ({| isProfileOpen := isProfileOpen s;
          isMobileMenuOpen := negb (isMobileMenuOpen s) |}, [])
  | ClickMobileLink =>
      ({| isProfileOpen := isProfileOpen s; isMobileMenuOpen := false |}, [])
  | ClickMobileSignOut =>
      ({| isProfileOpen := isProfileOpen s; isMobileMenuOpen := false |},
       handleSignOut)
  | SignOutSettled r => (s, handleSignOut_resume r)
  end.

Fixpoint run_from (s : State) (ops : list Op) : State * list Call :=
  match ops with
  | [] => (s, [])
  | op :: rest =>
      let '(s1, c1) := step s op in
      let '(s2, c2) := run_from s1 rest in
      (s2, c1 ++ c2)
  end.

Fixpoint feasible_from (s : State) (ops : list Op) : bool :=
  match ops with
  | [] => true
  | op :: rest => clickable s op && feasible_from (step s op).1 rest
  end.

End WithUser.

End Navbar.

(** ** Vocabulary of the properties *)

(** A handler keeps a property of the state. *)
Definition preserves (P : AgentState → Prop) (h : Handler) : Prop :=
  ∀ s, P s → P (h s).1.

(** The status cell holds one of the four values of the enumeration. *)
Definition status_in_enum (s : AgentState) : Prop :=
  callStatus s ∈ CallStatus.values.

(** Every outside call of a handler is of a given kind. *)
Definition emits_only (A : Action → Prop) (h : Handler) : Prop :=
  ∀ s, Forall A (h s).2.

(** Writing to the console, or reading the body of an error response. *)
Definition is_logging (a : Action) : Prop :=
  match a with
  | ConsoleLog _ | ConsoleError _ _ | ResponseText _ => True
  | _ => False
  end.

Definition is_start (a : Action) : Prop :=
  match a with VapiStart _ _ => True | _ => False end.

(** The navigations of a trace. *)
Definition navigations (tr : list Action) : list jsstring :=
  omap (λ a, match a with RouterPush href => Some href | _ => None end) tr.

(** The listener the component registers under an event name. *)
Definition wired_listener (name : jsstring) : option HandlerId :=
  (λ found, found.2.2)
    <$> list_find (λ p, p.1 = name) (wired : list (jsstring * HandlerId)).

(** A message event the buffer takes: a transcript of transcript type
    [final] with a string in its [transcript] field. *)
Definition is_final_transcript (message : option VapiMessage) : Prop :=
  ∃ m t, message = Some m
         ∧ msg_type m = Some (lit "transcript")
         ∧ msg_transcriptType m = Some (lit "final")
         ∧ msg_transcript m = Some t.

(** Two neighbours of the buffer with the same trimmed content. *)
Definition adjacent_duplicate (buffer : list SavedMessage) (i : nat) : Prop :=
  ∃ a b, buffer !! i = Some a ∧ buffer !! S i = Some b
         ∧ trim (content a) = trim (content b).

(** What the code achieves: neighbours with the same trimmed content are
    empty. *)
Definition deduplicated (buffer : list SavedMessage) : Prop :=
  ∀ i a b, buffer !! i = Some a → buffer !! S i = Some b →
           trim (content a) = trim (content b) → trim (content a) = empty.

(** The calls of the handlers that neither navigate nor create feedback. *)
Definition is_quiet (a : Action) : Prop :=
  match a with
  | ConsoleLog _ | ConsoleError _ _ | ResponseText _ | VapiStart _ _ | VapiStop => True
  | _ => False
  end.

Definition is_feedback (a : Action) : Prop :=
  match a with CreateFeedback _ => True | _ => False end.

(** The id a click on Call would start is empty: on the page that generates
    an interview the workflow id of the environment is absent or empty, on
    any other page the interviewer constant is. *)
Definition id_is_empty (env : Env) (props : AgentProps) : bool :=
  if bool_decide (type props = Some (lit "generate"))
  then negb (truthy (default empty (NEXT_PUBLIC_VAPI_WORKFLOW_ID env)))
  else negb (flow_truthy (interviewer env)).

(** The values an operation can change the status to: the three SDK events
    whose listeners set it (with the resumed error listener), and the
    component's own [handleCall] (with its [catch]) and [handleDisconnect]. *)
Definition status_targets (env : Env) (props : AgentProps) (op : Op) : list jsstring :=
  match op with
  | Emit e =>
      if bool_decide (event_name e = lit "call-start") then [CallStatus.ACTIVE]
      else if bool_decide (event_name e = lit "call-end") then [CallStatus.FINISHED]
      else if bool_decide (event_name e = lit "error") then [CallStatus.INACTIVE]
      else []
  | ErrorBodySettled _ _ => [CallStatus.INACTIVE]
  | ClickCall =>
      if id_is_empty env props then [CallStatus.INACTIVE] else [CallStatus.CONNECTING]
  | StartSettled (Rejected _) => [CallStatus.INACTIVE]
  | StartSettled (Resolved _) => []
  | CatchBodySettled _ _ => [CallStatus.INACTIVE]
  | ClickDisconnect None => [CallStatus.FINISHED]
  | ClickDisconnect (Some _) => [CallStatus.INACTIVE]
  | FeedbackSettled _ => []
  end.

(** The status was never FINISHED, from a world on and along the operations. *)
Fixpoint never_finished_from (env : Env) (props : AgentProps)
    (w : World) (ops : list Op) : Prop :=
  callStatus (agent w) ≠ CallStatus.FINISHED
  ∧ match ops with
    | [] => True
    | op :: rest => never_finished_from env props (step env props w op).1 rest
    end.

Definition never_finished (env : Env) (props : AgentProps) (ops : list Op) : Prop :=
  never_finished_from env props (mount props).1 ops.

(** *** Three sentences of the specification, as they are written *)

(** "The call status changes only in response to an SDK-emitted event." *)
Definition status_driven_by_sdk_only (env : Env) (props : AgentProps) : Prop :=
  ∀ ops op,
    feasible env props (ops ++ [op]) = true →
    callStatus (agent (step env props (session env props ops).1 op).1)
      ≠ callStatus (agent (session env props ops).1) →
    is_sdk_event op = true.

(** "For every session that reaches FINISHED, createFeedback is called
    exactly once with the buffered transcript, regardless of the mode." *)
Definition feedback_once_when_finished (env : Env) (props : AgentProps) : Prop :=
  ∀ ops,
    feasible env props ops = true →
    callStatus (agent (session env props ops).1) = CallStatus.FINISHED →
    feedback_calls (session env props ops).2
    = [ {| cf_interviewId := interviewId props;
           cf_userId := userId props;
           cf_transcript := messages (agent (session env props ops).1);
           cf_feedbackId := feedbackId props |} ].

(** "The set of event names with a registered handler has five elements." *)
Definition five_events_listened : Prop := length (listened wired) = 5.

(** ** Sample data *)

Definition final_transcript (text : jsstring) : VapiMessage :=
  {| msg_type := Some (lit "transcript");
     msg_transcriptType := Some (lit "final");
     msg_transcript := Some text;
     msg_role := None |}.

(** A final transcript that holds one space. *)
Definition blank_final : VapiMessage := final_transcript (lit " ").

(** An interview page: no workflow id is needed, the interviewer is an
    assistant object. *)
Definition interview_env : Env :=
  {| NEXT_PUBLIC_VAPI_WORKFLOW_ID := None; interviewer := FlowAssistant |}.

Definition interview_props : AgentProps :=
  {| userName := Some (lit "Ada"); userId := Some (lit "u1");
     interviewId := Some (lit "i1"); feedbackId := None;
     type := Some (lit "feedback"); questions := Some [lit "Why?"] |}.

(** The page that generates an interview, with a workflow id configured. *)
Definition generate_env : Env :=
  {| NEXT_PUBLIC_VAPI_WORKFLOW_ID := Some (lit "wf-1"); interviewer := FlowAssistant |}.

Definition generate_props : AgentProps :=
  {| userName := Some (lit "Ada"); userId := Some (lit "u1");
     interviewId := None; feedbackId := None;
     type := Some (lit "generate"); questions := None |}.

(** *** Readings of operations and traces *)

(** What an operation says about the assistant speaking: a [speech-start]
    event that it does, a [speech-end] event that it does not. *)
Definition speech_of (op : Op) : option bool :=
  match op with
  | Emit e =>
      if bool_decide (event_name e = lit "speech-start") then Some true
      else if bool_decide (event_name e = lit "speech-end") then Some false
      else None
  | _ => None
  end.

(** A [message] event that carries a message. *)
Definition is_message_op (op : Op) : bool :=
  match op with Emit (EvMessage (Some _)) => true | _ => false end.

Definition is_click_call (op : Op) : bool :=
  match op with ClickCall => true | _ => false end.

Definition is_click_disconnect (op : Op) : bool :=
  match op with ClickDisconnect _ => true | _ => false end.

(** The arguments of the [vapi.start] calls of a trace, and its [vapi.stop]
    calls. *)
Definition starts (tr : list Action) : list (Flow * list (jsstring * jsstring)) :=
  omap (λ a, match a with VapiStart f v => Some (f, v) | _ => None end) tr.

Definition stops (tr : list Action) : list unit :=
  omap (λ a, match a with VapiStop => Some () | _ => None end) tr.

(** How many operations of a kind a sequence holds. *)
Fixpoint count_ops (kind : Op → bool) (ops : list Op) : nat :=
  match ops with
  | [] => 0
  | op :: rest => (if kind op then 1 else 0) + count_ops kind rest
  end.

(** Trimming changes none of the contents of a buffer. *)
Definition contents_trimmed (buffer : list SavedMessage) : Prop :=
  Forall (λ x, trim (content x) = content x) buffer.

(** *** Readings of the Navbar's operations and calls *)

Module NavbarSpec.

Definition pushes (calls : list Navbar.Call) : list jsstring :=
  omap (λ c, match c with Navbar.Push href => Some href | _ => None end) calls.

Definition sign_outs (calls : list Navbar.Call) : list unit :=
  omap (λ c, match c with Navbar.SignOut => Some () | _ => None end) calls.

Definition refreshes (calls : list Navbar.Call) : list unit :=
  omap (λ c, match c with Navbar.Refresh => Some () | _ => None end) calls.

Definition is_resolved (op : Navbar.Op) : bool :=
  match op with Navbar.SignOutSettled (Resolved _) => true | _ => false end.

Definition is_sign_out_click (op : Navbar.Op) : bool :=
  match op with Navbar.ClickSignOut | Navbar.ClickMobileSignOut => true | _ => false end.

Fixpoint count (kind : Navbar.Op → bool) (ops : list Navbar.Op) : nat :=
  match ops with
  | [] => 0
  | op :: rest => (if kind op then 1 else 0) + count kind rest
  end.

End NavbarSpec.

(** * Properties *)

(** ** Trimming *)

Section TrimFacts.

Lemma trimStart_head s c :
head (trimStart s) = Some c → isWhiteSpace c = false.
Proof.
induction s as [|a s IH]; simpl; [done|].
destruct (isWhiteSpace a) eqn:Ha; [done|].
simpl. by intros [= <-].
Qed.

Lemma trimStart_fixed s :
(∀ c, head s = Some c → isWhiteSpace c = false) → trimStart s = s.
Proof.
destruct s as [|a s]; simpl; [done|].
intros H. by rewrite (H a eq_refl).
Qed.

Lemma trimStart_idemp s : trimStart (trimStart s) = trimStart s.
Proof. apply trimStart_fixed, trimStart_head. Qed.

Lemma trimStart_snoc s c :
isWhiteSpace c = false → trimStart (s ++ [c]) = trimStart s ++ [c].
Proof.
intros Hc. induction s as [|a s IH]; simpl.
- by rewrite Hc.
- destruct (isWhiteSpace a); [apply IH | done].
Qed.

Lemma trimEnd_last s c :
last (trimEnd s) = Some c → isWhiteSpace c = false.
Proof.
unfold trimEnd. rewrite last_reverse. apply trimStart_head.
Qed.

(** Stripping the end does not uncover white space at the start. *)
Lemma trimEnd_head s c :
(∀ a, head s = Some a → isWhiteSpace a = false) →
head (trimEnd s) = Some c → isWhiteSpace c = false.
Proof.
destruct s as [|a s]; [done|].
intros Ha. specialize (Ha a eq_refl).
unfold trimEnd. rewrite reverse_cons, trimStart_snoc by done.
rewrite reverse_snoc. simpl. by intros [= <-].
Qed.

Lemma trim_trimmed s : trimmed (trim s).
Proof.
split; intros c.
- apply trimEnd_head, trimStart_head.
- apply trimEnd_last.
Qed.

Lemma trimmed_fixed s : trimmed s → trim s = s.
Proof.
intros [Hh Hl]. unfold trim, trimEnd.
rewrite (trimStart_fixed s Hh).
rewrite trimStart_fixed; [apply reverse_involutive|].
intros c. rewrite head_reverse. apply Hl.
Qed.

Lemma trim_idemp s : trim (trim s) = trim s.
Proof. apply trimmed_fixed, trim_trimmed. Qed.

Lemma truthy_false s : truthy s = false ↔ s = [].
Proof. by destruct s. Qed.

End TrimFacts.

(** ** The root layout *)

(** C10: when [isAuthenticated] resolves to false the layout redirects to
    [/sign-in]; it does not call [getCurrentUser] and returns no view, so
    neither the Navbar nor the children are rendered. *)
Theorem Layout_unauthenticated_redirects {Node : Type}
    (currentUser : option RootLayout.User) (children : Node) :
  let '(completion, calls) := RootLayout.Layout false currentUser children in
  (completion = RootLayout.Redirects (lit "/sign-in")
   ∧ calls = [RootLayout.IsAuthenticated; RootLayout.Redirect (lit "/sign-in")]
   ∧ (RootLayout.GetCurrentUser ∉ calls)
   ∧ ∀ view, completion ≠ RootLayout.Returns view).
Proof.
  cbn. split_and!; [done | done | | done].
  rewrite !not_elem_of_cons. split_and!; [done | done | apply not_elem_of_nil].
Qed.

(** For an authenticated user the layout fetches the user and renders the
    Navbar with it, and the children. *)
Lemma Layout_authenticated_renders {Node : Type}
    (currentUser : option RootLayout.User) (children : Node) :
  RootLayout.Layout true currentUser children
  = (RootLayout.Returns
       {| RootLayout.className := lit "root-layout";
          RootLayout.navbar_user := currentUser;
          RootLayout.rendered_children := children |},
     [RootLayout.IsAuthenticated; RootLayout.GetCurrentUser]).
Proof. reflexivity. Qed.

(** ** Event wiring *)

Lemma wired_eq :
  wired = [ (lit "call-start", OnCallStart); (lit "call-end", OnCallEnd);
            (lit "message", OnMessage); (lit "speech-start", OnSpeechStart);
            (lit "speech-end", OnSpeechEnd); (lit "error", OnError) ].
Proof. reflexivity. Qed.

(** C5, as the specification states it, fails: the component listens to six
    event names, not five. *)
Lemma listened_events_not_five : ¬ five_events_listened.
Proof. unfold five_events_listened. vm_compute. discriminate. Qed.

(** C5 (amended): the component registers listeners for exactly six event
    names, [call-start], [call-end], [message], [speech-start], [speech-end]
    and [error]; the cleanup unregisters the same listeners under the same
    names and leaves none of them on the SDK. *)
Theorem listened_events_six :
  listened wired = [ lit "call-start"; lit "call-end"; lit "message";
                     lit "speech-start"; lit "speech-end"; lit "error" ]
  ∧ length (listened wired) = 6
  ∧ omap unregistration eventWiring_cleanup = omap registration eventWiring
  ∧ length eventWiring = 6 ∧ length eventWiring_cleanup = 6
  ∧ foldl sdk_apply wired eventWiring_cleanup = [].
Proof. by vm_compute. Qed.

(** ** Invariants of a session *)

Create HintDb handlers discriminated.

Lemma preserves_skip P : preserves P skip.
Proof. by intros s. Qed.

Lemma preserves_andThen P h k :
  preserves P h → preserves P k → preserves P (h >> k).
Proof.
  intros Hh Hk s Hs. unfold andThen.
  specialize (Hh s Hs). destruct (h s) as [s1 a1]. simpl in Hh.
  specialize (Hk s1 Hh). by destruct (k s1) as [s2 a2].
Qed.

Lemma preserves_call P a : preserves P (call a).
Proof. by intros s. Qed.

Lemma INACTIVE_in_enum : CallStatus.INACTIVE ∈ CallStatus.values.
Proof. unfold CallStatus.values. rewrite !elem_of_cons. tauto. Qed.
Lemma CONNECTING_in_enum : CallStatus.CONNECTING ∈ CallStatus.values.
Proof. unfold CallStatus.values. rewrite !elem_of_cons. tauto. Qed.
Lemma ACTIVE_in_enum : CallStatus.ACTIVE ∈ CallStatus.values.
Proof. unfold CallStatus.values. rewrite !elem_of_cons. tauto. Qed.
Lemma FINISHED_in_enum : CallStatus.FINISHED ∈ CallStatus.values.
Proof. unfold CallStatus.values. rewrite !elem_of_cons. tauto. Qed.

#[local] Hint Resolve preserves_skip preserves_andThen preserves_call
  INACTIVE_in_enum CONNECTING_in_enum ACTIVE_in_enum FINISHED_in_enum : handlers.

Lemma session_unfold env props ops :
  (session env props ops).1 = (run_from env props (mount props).1 ops).1.
Proof.
  unfold session, mount. cbn [fst]. by destruct (run_from _ _ _ _).
Qed.

(** A property that the three kinds of state update keep (the status being
    set to a value of the enumeration only, the speaking flag to anything,
    the buffer as [onMessage] does) holds throughout a session. *)
Section Invariant.

Context (P : AgentState → Prop).
Hypothesis P_setCallStatus :
  ∀ v, v ∈ CallStatus.values → preserves P (setCallStatus v).
Hypothesis P_setIsSpeaking : ∀ b, preserves P (setIsSpeaking b).
Hypothesis P_onMessage : ∀ message, preserves P (onMessage message).

#[local] Hint Resolve P_setCallStatus P_setIsSpeaking P_onMessage : handlers.

Lemma preserves_onError error : preserves P (onError error).
Proof using P_setCallStatus. unfold onError. destruct error; auto with handlers. Qed.

Lemma preserves_invoke h e : preserves P (invoke h e).
Proof using All.
  destruct h; simpl; unfold onCallStart, onCallEnd, onSpeechStart, onSpeechEnd;
    auto using preserves_onError with handlers.
Qed.

Lemma preserves_dispatch l e : preserves P (dispatch l e).
Proof using All.
  induction l as [|[name h] l IH]; simpl; [auto with handlers|].
  case_bool_decide; auto using preserves_invoke with handlers.
Qed.

Lemma preserves_perform env props l op : preserves P (perform env props l op).
Proof using All.
  destruct op as [e|nested r| |r|nested r|stop|r]; simpl.
  - apply preserves_dispatch.
  - unfold onError_resume. destruct r; auto with handlers.
  - unfold handleCall. apply preserves_andThen; [auto with handlers|].
    cbv zeta. destruct (negb _); [auto with handlers|].
    destruct (is_generate props); auto with handlers.
  - destruct r as [[]|e]; [auto with handlers|].
    unfold handleCall_catch. destruct e; auto with handlers.
  - unfold handleCall_catch_resume. destruct r; auto with handlers.
  - unfold handleDisconnect. destruct stop; auto 6 with handlers.
  - by intros s.
Qed.

Lemma preserves_step env props w op :
  P (agent w) → P (agent (step env props w op).1).
Proof using All.
  intros Hw. unfold step.
  pose proof (preserves_perform env props (listeners w) op (agent w) Hw) as H.
  by destruct (perform env props (listeners w) op (agent w)) as [s' acts].
Qed.

Lemma preserves_run_from env props ops : ∀ w,
  P (agent w) → P (agent (run_from env props w ops).1).
Proof using All.
  induction ops as [|op ops IH]; intros w Hw; simpl; [done|].
  pose proof (preserves_step env props w op Hw) as H1.
  destruct (step env props w op) as [w1 a1]. simpl in H1.
  specialize (IH w1 H1). by destruct (run_from env props w1 ops) as [w2 a2].
Qed.

Lemma session_invariant env props ops :
  P initialState → P (agent (session env props ops).1).
Proof using All.
  intros H0. rewrite session_unfold. by apply preserves_run_from.
Qed.

End Invariant.

(** ** The status stays in the enumeration *)

Lemma status_in_enum_onMessage message : preserves status_in_enum (onMessage message).
Proof.
  unfold onMessage. destruct message as [m|]; [|auto with handlers].
  destruct (_ && _); [|auto with handlers].
  destruct (msg_transcript m); [by intros s | auto with handlers].
Qed.

(** Every operation keeps the status in the enumeration, whatever the
    listeners on the SDK are. *)
Lemma step_preserves_status env props w op :
  status_in_enum (agent w) → status_in_enum (agent (step env props w op).1).
Proof.
  apply preserves_step; [by intros v Hv s _ | by intros b s |].
  apply status_in_enum_onMessage.
Qed.

(** C7: the component starts with the status INACTIVE, and after any
    sequence of operations (SDK events, clicks on Call and End, settled
    promises) the status is one of INACTIVE, CONNECTING, ACTIVE, FINISHED. *)
Theorem callStatus_always_in_enum env props ops :
  callStatus (agent (mount props).1) = CallStatus.INACTIVE
  ∧ callStatus (agent (session env props ops).1)
      ∈ [CallStatus.INACTIVE; CallStatus.CONNECTING; CallStatus.ACTIVE;
         CallStatus.FINISHED].
Proof.
  split; [done|].
  apply (session_invariant status_in_enum);
    [by intros v Hv s _ | by intros b s | apply status_in_enum_onMessage |].
  apply INACTIVE_in_enum.
Qed.

(** ** What the handlers call *)

Lemma emits_only_skip A : emits_only A skip.
Proof. intros s. constructor. Qed.

Lemma emits_only_andThen A h k :
  emits_only A h → emits_only A k → emits_only A (h >> k).
Proof.
  intros Hh Hk s. unfold andThen.
  specialize (Hh s). destruct (h s) as [s1 a1].
  specialize (Hk s1). destruct (k s1) as [s2 a2].
  by apply Forall_app.
Qed.

Lemma emits_only_call (A : Action → Prop) a : A a → emits_only A (call a).
Proof. intros Ha s. by repeat constructor. Qed.

Lemma emits_only_setCallStatus A v : emits_only A (setCallStatus v).
Proof. intros s. constructor. Qed.

Lemma emits_only_setMessages A f : emits_only A (setMessages f).
Proof. intros s. constructor. Qed.

Lemma emits_only_setIsSpeaking A b : emits_only A (setIsSpeaking b).
Proof. intros s. constructor. Qed.

Lemma emits_only_weaken (A B : Action → Prop) h :
  (∀ a, A a → B a) → emits_only A h → emits_only B h.
Proof. intros HAB Hh s. eapply Forall_impl; [apply Hh | done]. Qed.

#[local] Hint Resolve emits_only_skip emits_only_andThen emits_only_call
  emits_only_setCallStatus emits_only_setMessages emits_only_setIsSpeaking
  : handlers.
#[local] Hint Extern 1 (is_logging _) => exact I : handlers.

Lemma onMessage_silent A message : emits_only A (onMessage message).
Proof.
  unfold onMessage. destruct message as [m|]; [|auto with handlers].
  destruct (_ && _); [|auto with handlers].
  destruct (msg_transcript m); auto with handlers.
Qed.

Lemma onError_logs error : emits_only is_logging (onError error).
Proof. unfold onError. destruct error; auto with handlers. Qed.

Lemma onError_resume_logs nested r : emits_only is_logging (onError_resume nested r).
Proof. unfold onError_resume. destruct r; auto with handlers. Qed.

Lemma invoke_logs h e : emits_only is_logging (invoke h e).
Proof.
  destruct h; simpl; unfold onCallStart, onCallEnd, onSpeechStart, onSpeechEnd;
    auto using onMessage_silent, onError_logs with handlers.
Qed.

Lemma dispatch_logs l e : emits_only is_logging (dispatch l e).
Proof.
  induction l as [|[name h] l IH]; simpl; [auto with handlers|].
  case_bool_decide; auto using invoke_logs with handlers.
Qed.

(** ** The error listener *)

(** With the status set aside, the two parts of the error listener return
    the state they are given. *)
Lemma onError_state error s :
  (onError error s).1
  = {| callStatus := if bool_decide (error ∈ [IsResponse; HasResponse])
                     then callStatus s else CallStatus.INACTIVE;
       messages := messages s; isSpeaking := isSpeaking s;
       lastMessage := lastMessage s |}.
Proof. destruct error, s; reflexivity. Qed.

Lemma onError_resume_state nested r s :
  (onError_resume nested r s).1
  = {| callStatus := CallStatus.INACTIVE; messages := messages s;
       isSpeaking := isSpeaking s; lastMessage := lastMessage s |}.
Proof. destruct r; reflexivity. Qed.

(** C6: the error listener only logs (and reads the response body it logs);
    its only state update is to set the status to INACTIVE, at once when the
    error carries no response and after the body is read otherwise; the
    message buffer, the speaking flag and the last message are not touched. *)
Theorem onError_only_resets_status error nested r s :
  let '(s1, acts1) := onError error s in
  let '(s2, acts2) := onError_resume nested r s in
  (messages s1 = messages s ∧ isSpeaking s1 = isSpeaking s
   ∧ lastMessage s1 = lastMessage s
   ∧ callStatus s1 = (if bool_decide (error ∈ [IsResponse; HasResponse])
                      then callStatus s else CallStatus.INACTIVE)
   ∧ Forall is_logging acts1)
  ∧ (messages s2 = messages s ∧ isSpeaking s2 = isSpeaking s
     ∧ lastMessage s2 = lastMessage s
     ∧ callStatus s2 = CallStatus.INACTIVE
     ∧ Forall is_logging acts2).
Proof.
  pose proof (onError_logs error s) as H1.
  pose proof (onError_resume_logs nested r s) as H2.
  pose proof (onError_state error s) as E1.
  pose proof (onError_resume_state nested r s) as E2.
  destruct (onError error s) as [s1 acts1].
  destruct (onError_resume nested r s) as [s2 acts2].
  simpl in *. subst s1 s2. by split_and!.
Qed.

(** ** Events reach the listener registered under their name *)

Lemma andThen_skip_r h s : (h >> skip) s = h s.
Proof.
  unfold andThen, skip. destruct (h s) as [s1 a1]. by rewrite app_nil_r.
Qed.

Lemma dispatch_miss l e s :
  event_name e ∉ l.*1 → dispatch l e s = (s, []).
Proof.
  induction l as [|[name h] l IH]; simpl; [done|].
  rewrite not_elem_of_cons. intros [Hne Hl].
  case_bool_decide; [done | by apply IH].
Qed.

(** With one listener per name, an event runs the listener found under its
    name, and nothing else. *)
Lemma dispatch_NoDup l e s :
  NoDup l.*1 →
  dispatch l e s
  = match list_find (λ p, p.1 = event_name e) (l : list (jsstring * HandlerId)) with
    | Some (_, (_, h)) => invoke h e s
    | None => (s, [])
    end.
Proof.
  induction l as [|[name h] l IH]; simpl; [done|].
  rewrite NoDup_cons. intros [Hname Hl].
  case_bool_decide as Hn; case_decide; try done.
  - unfold andThen. destruct (invoke h e s) as [s1 a1].
    rewrite dispatch_miss by (by rewrite <- Hn). by rewrite app_nil_r.
  - rewrite IH by done.
    by destruct (list_find _ l) as [[i [n' h']]|].
Qed.

Lemma wired_NoDup : NoDup wired.*1.
Proof. compute_done. Qed.

Lemma dispatch_wired e s :
  dispatch wired e s
  = match wired_listener (event_name e) with
    | Some h => invoke h e s
    | None => (s, [])
    end.
Proof.
  rewrite dispatch_NoDup by apply wired_NoDup. unfold wired_listener.
  by destruct (list_find _ wired) as [[i [n h]]|].
Qed.

Lemma step_agent env props w op :
  agent (step env props w op).1 = (perform env props (listeners w) op (agent w)).1.
Proof. unfold step. by destruct (perform _ _ _ _ _). Qed.

Lemma step_listeners env props w op :
  listeners (step env props w op).1 = listeners w.
Proof. unfold step. by destruct (perform _ _ _ _ _). Qed.

Lemma run_from_listeners env props ops : ∀ w,
  listeners (run_from env props w ops).1 = listeners w.
Proof.
  induction ops as [|op ops IH]; intros w; simpl; [done|].
  pose proof (step_listeners env props w op) as H1.
  destruct (step env props w op) as [w1 a1]. simpl in H1.
  specialize (IH w1). destruct (run_from env props w1 ops) as [w2 a2].
  simpl in *. congruence.
Qed.

(** During a session the SDK holds exactly the listeners of the first
    effect. *)
Lemma session_listeners env props ops :
  listeners (session env props ops).1 = wired.
Proof. rewrite session_unfold. by rewrite run_from_listeners. Qed.

Lemma step_message env props ops message :
  agent (step env props (session env props ops).1 (Emit (EvMessage message))).1
  = (onMessage message (agent (session env props ops).1)).1.
Proof.
  rewrite step_agent, session_listeners. unfold perform.
  by rewrite dispatch_wired.
Qed.

Lemma step_error env props ops error :
  agent (step env props (session env props ops).1 (Emit (EvError error))).1
  = (onError error (agent (session env props ops).1)).1.
Proof.
  rewrite step_agent, session_listeners. unfold perform.
  by rewrite dispatch_wired.
Qed.

(** In a session, an [error] event touches nothing but the status, which it
    leaves alone (a response body is still to be read) or sets to
    INACTIVE. *)
Lemma error_event_frame env props ops error :
  let w := (session env props ops).1 in
  let after := agent (step env props w (Emit (EvError error))).1 in
  messages after = messages (agent w) ∧ isSpeaking after = isSpeaking (agent w)
  ∧ lastMessage after = lastMessage (agent w)
  ∧ callStatus after ∈ [callStatus (agent w); CallStatus.INACTIVE].
Proof.
  cbv zeta. rewrite step_error, onError_state. simpl. split_and!; [done..|].
  case_bool_decide; rewrite !elem_of_cons; tauto.
Qed.

(** Teardown leaves none of the component's listeners on the SDK. *)
Lemma unmount_removes_listeners env props ops :
  listeners (unmount (session env props ops).1).1 = [].
Proof. unfold unmount. simpl. by rewrite session_listeners. Qed.

(** ** The message buffer *)

Lemma onMessage_not_final message s :
  ¬ is_final_transcript message → (onMessage message s).1 = s.
Proof.
  intros Hnot. unfold onMessage.
  destruct message as [m|]; [|done].
  destruct (bool_decide (msg_type m = _)) eqn:Ht; [|done].
  destruct (bool_decide (msg_transcriptType m = _)) eqn:Htt; [|done].
  destruct (msg_transcript m) as [t|] eqn:Htr; [|done].
  exfalso. apply Hnot. exists m, t.
  apply bool_decide_eq_true in Ht, Htt. done.
Qed.

Lemma onMessage_final m t s :
  is_final_transcript (Some m) → msg_transcript m = Some t →
  (onMessage (Some m) s).1
  = {| callStatus := callStatus s;
       messages :=
         if same_as_last ((λ x, trim (content x)) <$> last (messages s)) (trim t)
         then messages s
         else messages s ++ [ {| role := default (lit "assistant") (msg_role m);
                                 content := trim t |} ];
       isSpeaking := isSpeaking s;
       lastMessage := lastMessage s |}.
Proof.
  intros (m' & t' & [= <-] & Ht & Htt & Htr) Hm. unfold onMessage.
  rewrite Ht, Htt, Hm. by rewrite !bool_decide_eq_true_2.
Qed.

(** C8: a message event that is not a final transcript with a string
    transcript leaves the buffer as it is; any message event either leaves
    the buffer as it is or appends one message, whose content is the trimmed
    transcript (no white space at either end) and whose role is the one of
    the event, or ["assistant"] when the event has none. *)
Theorem onMessage_frame_and_shape env props ops message :
  let w := (session env props ops).1 in
  let after := messages (agent (step env props w (Emit (EvMessage message))).1) in
  (¬ is_final_transcript message → after = messages (agent w))
  ∧ (after = messages (agent w)
     ∨ ∃ m t, message = Some m ∧ msg_transcript m = Some t
              ∧ after = messages (agent w)
                        ++ [ {| role := default (lit "assistant") (msg_role m);
                                content := trim t |} ]
              ∧ trimmed (trim t)).
Proof.
  cbv zeta. rewrite step_message.
  set (s := agent (session env props ops).1). split.
  - intros Hnot. by rewrite onMessage_not_final.
  - destruct message as [m|]; [|by left].
    destruct (bool_decide (msg_type m = Some (lit "transcript"))) eqn:Ht;
      [|left; unfold onMessage; by rewrite Ht].
    destruct (bool_decide (msg_transcriptType m = Some (lit "final"))) eqn:Htt;
      [|left; unfold onMessage; by rewrite Ht, Htt].
    destruct (msg_transcript m) as [t|] eqn:Htr;
      [|left; unfold onMessage; by rewrite Ht, Htt, Htr].
    apply bool_decide_eq_true in Ht, Htt.
    rewrite (onMessage_final m t) by (done || by exists m, t). simpl.
    destruct (same_as_last _ _); [by left|].
    right. exists m, t. split_and!; [done..|apply trim_trimmed].
Qed.

(** An event without the three fields leaves the buffer alone. *)
Lemma onMessage_frame_and_shape_witness :
  let w := (session interview_env interview_props []).1 in
  ¬ is_final_transcript (Some (mkVapiMessage None None None None))
  ∧ messages (agent (step interview_env interview_props w
                       (Emit (EvMessage (Some (mkVapiMessage None None None None))))).1)
    = messages (agent w).
Proof.
  assert (¬ is_final_transcript (Some (mkVapiMessage None None None None))) as Hnot.
  { intros (m & t & [= <-] & Ht & _). discriminate Ht. }
  split; [exact Hnot|].
  exact (proj1 (onMessage_frame_and_shape interview_env interview_props []
                  (Some (mkVapiMessage None None None None))) Hnot).
Defined.

(** *** Deduplication of consecutive transcripts *)

(** A repeated transcript that is not blank is dropped. *)
Lemma onMessage_drops_repeat m t s x :
  is_final_transcript (Some m) → msg_transcript m = Some t →
  last (messages s) = Some x → trim (content x) = trim t → trim t ≠ empty →
  (onMessage (Some m) s).1 = s.
Proof.
  intros Hf Ht Hx Heq Hne. rewrite (onMessage_final m t) by done.
  rewrite Hx. simpl. rewrite Heq, bool_decide_eq_true_2 by done.
  destruct (trim t) eqn:E; [done|]. simpl. by destruct s.
Qed.

(** A transcript that differs from the last one, or the first one, is
    appended. *)
Lemma onMessage_appends m t s :
  is_final_transcript (Some m) → msg_transcript m = Some t →
  (∀ x, last (messages s) = Some x → trim (content x) ≠ trim t) →
  messages (onMessage (Some m) s).1
  = messages s ++ [ {| role := default (lit "assistant") (msg_role m);
                       content := trim t |} ].
Proof.
  intros Hf Ht Hx. rewrite (onMessage_final m t) by done. simpl.
  destruct (last (messages s)) as [x|]; [|done]. simpl.
  rewrite (bool_decide_eq_false_2 (trim (content x) = trim t)) by auto.
  by rewrite andb_false_r.
Qed.

Lemma deduplicated_snoc buffer new :
  deduplicated buffer →
  (∀ x, last buffer = Some x →
        trim (content x) = trim (content new) → trim (content x) = empty) →
  deduplicated (buffer ++ [new]).
Proof.
  intros Hb Hlast i a b Ha Hb' Heq.
  destruct (decide (S i < length buffer)) as [Hlt|Hge].
  - rewrite lookup_app_l in Ha by lia. rewrite lookup_app_l in Hb' by lia.
    by apply (Hb i a b).
  - pose proof (lookup_lt_Some _ _ _ Hb') as Hlen.
    rewrite length_app in Hlen. simpl in Hlen.
    assert (S i = length buffer) as Hi by lia.
    rewrite lookup_app_l in Ha by lia.
    rewrite lookup_app_r in Hb' by lia.
    replace (S i - length buffer) with 0 in Hb' by lia.
    injection Hb' as <-.
    apply Hlast; [|done].
    rewrite last_lookup, <- Hi. done.
Qed.

Lemma deduplicated_onMessage message :
  preserves (λ s, deduplicated (messages s)) (onMessage message).
Proof.
  intros s Hs. unfold onMessage.
  destruct message as [m|]; [|done].
  destruct (_ && _); [|done].
  destruct (msg_transcript m) as [t|]; [|done]. simpl.
  destruct (same_as_last _ _) eqn:Hsame; [done|].
  apply deduplicated_snoc; [done|]. simpl. rewrite trim_idemp.
  intros x Hx Heq. rewrite Hx in Hsame. simpl in Hsame.
  rewrite bool_decide_eq_true_2 in Hsame by done.
  rewrite andb_true_r in Hsame. by apply truthy_false.
Qed.

(** X4: throughout a session, two neighbours of the buffer have the same trimmed
    content only when that content is empty. *)
Lemma session_buffer_deduplicated env props ops :
  deduplicated (messages (agent (session env props ops).1)).
Proof.
  apply (session_invariant (λ s, deduplicated (messages s)));
    [by intros v Hv s | by intros b s | apply deduplicated_onMessage |].
  intros i a b Ha. done.
Qed.

(** C1: the listener does not drop a repeated transcript that is blank.  With
    a buffer that ends in a message of empty content, a final transcript of
    one space has the same trimmed content as that message, yet it is
    appended, and the buffer then holds two neighbours of equal trimmed
    content; two such events in a row produce this buffer from the empty
    one. *)
Theorem onMessage_repeats_blank_transcript :
  let blank := {| role := lit "assistant"; content := empty |} in
  let s := {| callStatus := CallStatus.ACTIVE; messages := [blank];
              isSpeaking := false; lastMessage := empty |} in
  is_final_transcript (Some blank_final)
  ∧ trim <$> msg_transcript blank_final = (λ x, trim (content x)) <$> last (messages s)
  ∧ messages (onMessage (Some blank_final) s).1 = [blank; blank]
  ∧ adjacent_duplicate (messages (onMessage (Some blank_final) s).1) 0
  ∧ messages (agent (session interview_env interview_props
                       [ Emit (EvMessage (Some blank_final));
                         Emit (EvMessage (Some blank_final)) ]).1)
    = [blank; blank].
Proof.
  split_and!.
  - by exists blank_final, (lit " ").
  - by vm_compute.
  - by vm_compute.
  - eexists _, _. split_and!; by vm_compute.
  - by vm_compute.
Qed.

(** ** Starting a call *)

Lemma finishedDispatch_not_FINISHED props s :
  callStatus s ≠ CallStatus.FINISHED → finishedDispatch props s = [].
Proof. intros H. unfold finishedDispatch. by rewrite bool_decide_eq_false_2. Qed.

Lemma finishedDispatch_FINISHED props s :
  callStatus s = CallStatus.FINISHED →
  finishedDispatch props s
  = if is_generate props then [RouterPush (lit "/")]
    else [CreateFeedback (feedback_params props (messages s))].
Proof. intros H. unfold finishedDispatch. by rewrite bool_decide_eq_true_2. Qed.

Lemma rerender_not_FINISHED props before after :
  callStatus after ≠ CallStatus.FINISHED → rerender props before after = [].
Proof.
  intros H. unfold rerender. case_bool_decide; [done|].
  by apply finishedDispatch_not_FINISHED.
Qed.

Lemma flowId_falsy env props :
  (type props = Some (lit "generate") ∧ WORKFLOW_ID env = empty)
  ∨ (type props ≠ Some (lit "generate") ∧ flow_truthy (interviewer env) = false) →
  flow_truthy (flowId env props) = false.
Proof.
  unfold flowId, is_generate. intros [[Ht Hw]|[Ht Hi]].
  - rewrite bool_decide_eq_true_2 by done. by rewrite Hw.
  - by rewrite bool_decide_eq_false_2.
Qed.

Lemma handleCall_falsy env props s :
  flow_truthy (flowId env props) = false →
  handleCall env props s
  = ({| callStatus := CallStatus.INACTIVE; messages := messages s;
        isSpeaking := isSpeaking s; lastMessage := lastMessage s |},
     [ConsoleError
        (lit "No workflow/assistant id provided. Check NEXT_PUBLIC_VAPI_WORKFLOW_ID or interviewer constant.")
        ArgNone]).
Proof. intros H. unfold handleCall. by rewrite H. Qed.

(** C9: when the selected id is empty ([type] is ["generate"] and the workflow
    id of the environment is absent or empty, or [type] is anything else and
    the interviewer constant is empty), [handleCall] does not call
    [vapi.start] and leaves the status INACTIVE; so does the whole click,
    the render that follows included. *)
Theorem handleCall_without_flow_id env props w :
  (type props = Some (lit "generate") ∧ WORKFLOW_ID env = empty)
  ∨ (type props ≠ Some (lit "generate") ∧ flow_truthy (interviewer env) = false) →
  (callStatus (handleCall env props (agent w)).1 = CallStatus.INACTIVE
   ∧ Forall (λ a, ¬ is_start a) (handleCall env props (agent w)).2)
  ∧ (callStatus (agent (step env props w ClickCall).1) = CallStatus.INACTIVE
     ∧ Forall (λ a, ¬ is_start a) (step env props w ClickCall).2).
Proof.
  intros H. apply flowId_falsy in H.
  unfold step, perform. rewrite (handleCall_falsy env props (agent w) H).
  rewrite rerender_not_FINISHED by done. simpl.
  split; (split; [done|]); repeat constructor; by intros [].
Qed.

Lemma handleCall_without_flow_id_witness :
  ((type generate_props = Some (lit "generate") ∧ WORKFLOW_ID interview_env = empty)
   ∨ (type generate_props ≠ Some (lit "generate")
      ∧ flow_truthy (interviewer interview_env) = false))
  ∧ callStatus (agent (step interview_env generate_props
                         (mount generate_props).1 ClickCall).1)
    = CallStatus.INACTIVE.
Proof.
  assert ((type generate_props = Some (lit "generate")
           ∧ WORKFLOW_ID interview_env = empty)
          ∨ (type generate_props ≠ Some (lit "generate")
             ∧ flow_truthy (interviewer interview_env) = false)) as H.
  { left. split; reflexivity. }
  split; [exact H|].
  exact (proj1 (proj2 (handleCall_without_flow_id interview_env generate_props
                         (mount generate_props).1 H))).
Defined.

(** With an id, [handleCall] leaves the status CONNECTING and calls
    [vapi.start] once. *)
Lemma handleCall_with_flow_id env props s :
  flow_truthy (flowId env props) = true →
  callStatus (handleCall env props s).1 = CallStatus.CONNECTING
  ∧ ∃ values, (handleCall env props s).2 = [VapiStart (flowId env props) values].
Proof.
  intros H. unfold handleCall. rewrite H. simpl.
  destruct (is_generate props); (split; [done | by eexists]).
Qed.

(** ** What the handlers call, continued *)

Lemma is_logging_quiet a : is_logging a → is_quiet a.
Proof. by destruct a. Qed.

#[local] Hint Extern 1 (is_quiet _) => exact I : handlers.

Lemma perform_quiet env props l op :
  (∀ r, op ≠ FeedbackSettled r) → emits_only is_quiet (perform env props l op).
Proof.
  intros Hop. destruct op as [e|nested r| |r|nested r|stop|r]; simpl.
  - eapply emits_only_weaken; [apply is_logging_quiet | apply dispatch_logs].
  - unfold onError_resume. destruct r; auto with handlers.
  - unfold handleCall. apply emits_only_andThen; [auto with handlers|].
    destruct (negb _); [auto with handlers|].
    destruct (is_generate props); auto with handlers.
  - destruct r as [[]|e]; [auto with handlers|].
    unfold handleCall_catch. destruct e; auto with handlers.
  - unfold handleCall_catch_resume. destruct r; auto with handlers.
  - unfold handleDisconnect. destruct stop; auto 6 with handlers.
  - by destruct (Hop r).
Qed.

Lemma quiet_no_dispatch tr :
  Forall is_quiet tr → navigations tr = [] ∧ feedback_calls tr = [].
Proof.
  induction 1 as [|a tr Ha _ [IH1 IH2]]; [done|].
  destruct a; simpl in Ha; try contradiction; (split; [exact IH1 | exact IH2]).
Qed.

Lemma perform_no_feedback env props l op s :
  feedback_calls (perform env props l op s).2 = [].
Proof.
  assert ((∃ r, op = FeedbackSettled r) ∨ ∀ r, op ≠ FeedbackSettled r)
    as [[r ->]|Hno] by (destruct op; eauto).
  - simpl. unfold handleGenerateFeedback_resume.
    destruct r as [res|e]; [destruct (feedback_saved res)|]; done.
  - by apply quiet_no_dispatch, perform_quiet.
Qed.

(** ** Reaching FINISHED *)

Lemma step_trace env props w op :
  (step env props w op).2
  = (perform env props (listeners w) op (agent w)).2
    ++ rerender props (agent w) (agent (step env props w op).1).
Proof. unfold step. by destruct (perform _ _ _ _ _). Qed.

(** The render in which the status becomes FINISHED runs the second effect,
    after handler calls that neither navigate nor create feedback. *)
Lemma step_to_FINISHED env props w op :
  callStatus (agent w) ≠ CallStatus.FINISHED →
  callStatus (agent (step env props w op).1) = CallStatus.FINISHED →
  ∃ acts, Forall is_quiet acts
          ∧ (step env props w op).2
            = acts ++ (if is_generate props then [RouterPush (lit "/")]
                       else [CreateFeedback
                               (feedback_params props
                                  (messages (agent (step env props w op).1)))]).
Proof.
  intros Hbefore Hafter.
  exists (perform env props (listeners w) op (agent w)).2. split.
  - apply perform_quiet. intros r ->.
    rewrite step_agent in Hafter. simpl in Hafter. done.
  - rewrite step_trace. f_equal. unfold rerender.
    rewrite bool_decide_eq_false_2 by (intros [E _]; congruence).
    by apply finishedDispatch_FINISHED.
Qed.

(** C4: in the render in which the status becomes FINISHED, exactly one of
    the two is done, chosen by [type]: with ["generate"] the component
    navigates to the home route and does not create feedback; with any other
    value, or none, it calls the feedback action once, with the buffered
    messages, and does not navigate. *)
Theorem finished_dispatch_by_type env props w op :
  callStatus (agent w) ≠ CallStatus.FINISHED →
  callStatus (agent (step env props w op).1) = CallStatus.FINISHED →
  let tr := (step env props w op).2 in
  let buffer := messages (agent (step env props w op).1) in
  (type props = Some (lit "generate") →
   navigations tr = [lit "/"] ∧ feedback_calls tr = [])
  ∧ (type props ≠ Some (lit "generate") →
     navigations tr = []
     ∧ feedback_calls tr
       = [ {| cf_interviewId := interviewId props;
              cf_userId := userId props;
              cf_transcript := buffer;
              cf_feedbackId := feedbackId props |} ]).
Proof.
  intros Hbefore Hafter.
  destruct (step_to_FINISHED env props w op Hbefore Hafter) as (acts & Hq & ->).
  apply quiet_no_dispatch in Hq as [Hn Hf].
  unfold navigations, feedback_calls in *. cbv zeta. rewrite !omap_app, Hn, Hf.
  unfold is_generate. split; intros Ht.
  - by rewrite bool_decide_eq_true_2.
  - by rewrite bool_decide_eq_false_2.
Qed.

Lemma finished_dispatch_by_type_witness :
  let ops := [ClickCall; Emit EvCallStart;
              Emit (EvMessage (Some (final_transcript (lit " Hello "))))] in
  let w := (session interview_env interview_props ops).1 in
  callStatus (agent w) ≠ CallStatus.FINISHED
  ∧ callStatus (agent (step interview_env interview_props w (Emit EvCallEnd)).1)
    = CallStatus.FINISHED
  ∧ type interview_props ≠ Some (lit "generate")
  ∧ navigations (step interview_env interview_props w (Emit EvCallEnd)).2 = []
  ∧ feedback_calls (step interview_env interview_props w (Emit EvCallEnd)).2
    = [ {| cf_interviewId := Some (lit "i1");
           cf_userId := Some (lit "u1");
           cf_transcript := [ {| role := lit "assistant"; content := lit "Hello" |} ];
           cf_feedbackId := None |} ].
Proof.
  set (ops := [ClickCall; Emit EvCallStart;
               Emit (EvMessage (Some (final_transcript (lit " Hello "))))]).
  set (w := (session interview_env interview_props ops).1).
  assert (callStatus (agent w) ≠ CallStatus.FINISHED) as H1 by (by vm_compute).
  assert (callStatus (agent (step interview_env interview_props w (Emit EvCallEnd)).1)
          = CallStatus.FINISHED) as H2 by (by vm_compute).
  assert (type interview_props ≠ Some (lit "generate")) as H3 by (by vm_compute).
  split; [exact H1|]. split; [exact H2|]. split; [exact H3|].
  exact (proj2 (finished_dispatch_by_type interview_env interview_props w
                  (Emit EvCallEnd) H1 H2) H3).
Defined.

(** ** Feedback generation *)

Lemma never_finished_from_trace env props ops : ∀ w,
  never_finished_from env props w ops →
  feedback_calls (run_from env props w ops).2 = []
  ∧ callStatus (agent (run_from env props w ops).1) ≠ CallStatus.FINISHED.
Proof.
  induction ops as [|op ops IH]; intros w [Hw Hrest]; simpl; [done|].
  specialize (IH _ Hrest) as [IH1 IH2].
  pose proof (step_trace env props w op) as Htr.
  destruct (step env props w op) as [w1 a1]. simpl in *.
  destruct (run_from env props w1 ops) as [w2 a2]. simpl in *.
  split; [|done]. subst a1.
  unfold feedback_calls in *. rewrite !omap_app, IH1.
  fold (feedback_calls (perform env props (listeners w) op (agent w)).2).
  rewrite perform_no_feedback.
  rewrite rerender_not_FINISHED; [done|].
  destruct ops; by destruct Hrest.
Qed.

Lemma session_trace env props ops :
  (session env props ops).2
  = eventWiring ++ (run_from env props (mount props).1 ops).2.
Proof.
  unfold session, mount. cbn [fst]. destruct (run_from _ _ _ _). cbn [snd].
  rewrite finishedDispatch_not_FINISHED by (by vm_compute).
  by rewrite app_nil_r.
Qed.

(** C3, as the specification states it, fails: on the page that generates an
    interview the session reaches FINISHED and the feedback action is never
    called. *)
Lemma feedback_not_regardless_of_mode :
  ¬ feedback_once_when_finished generate_env generate_props.
Proof.
  intros H.
  specialize (H [ClickCall; StartSettled (Resolved ()); Emit EvCallStart;
                 Emit EvCallEnd] eq_refl eq_refl).
  vm_compute in H. discriminate H.
Qed.

(** C3 (amended): the feedback action is not called while the status has
    never been FINISHED; in the render in which the status first becomes
    FINISHED it is called exactly once, with the ids of the props and the
    buffered transcript, when [type] is not ["generate"]; when [type] is
    ["generate"] it is not called at all and the component navigates to the
    home route instead. *)
Theorem feedback_on_first_FINISHED env props ops op :
  never_finished env props ops →
  callStatus (agent (step env props (session env props ops).1 op).1)
  = CallStatus.FINISHED →
  feedback_calls (session env props ops).2 = []
  ∧ feedback_calls
      ((session env props ops).2 ++ (step env props (session env props ops).1 op).2)
    = (if bool_decide (type props = Some (lit "generate")) then []
       else [ {| cf_interviewId := interviewId props;
                 cf_userId := userId props;
                 cf_transcript :=
                   messages (agent (step env props (session env props ops).1 op).1);
                 cf_feedbackId := feedbackId props |} ])
  ∧ navigations (step env props (session env props ops).1 op).2
    = (if bool_decide (type props = Some (lit "generate")) then [lit "/"] else []).
Proof.
  intros Hnever Hafter.
  apply never_finished_from_trace in Hnever as [Hquiet Hbefore].
  rewrite <- session_unfold in Hbefore.
  assert (feedback_calls (session env props ops).2 = []) as Hsession.
  { rewrite session_trace. unfold feedback_calls in *.
    by rewrite omap_app, Hquiet. }
  split; [done|].
  destruct (step_to_FINISHED env props _ op Hbefore Hafter) as (acts & Hq & ->).
  apply quiet_no_dispatch in Hq as [Hn Hf].
  unfold feedback_calls, navigations in *. rewrite !omap_app, Hsession, Hf, Hn.
  fold (is_generate props). by destruct (is_generate props).
Qed.

Lemma feedback_on_first_FINISHED_witness :
  let ops := [ClickCall; StartSettled (Resolved ()); Emit EvCallStart;
              Emit (EvMessage (Some (final_transcript (lit "Hello"))))] in
  let w := (session interview_env interview_props ops).1 in
  never_finished interview_env interview_props ops
  ∧ callStatus (agent (step interview_env interview_props w (Emit EvCallEnd)).1)
    = CallStatus.FINISHED
  ∧ feedback_calls ((session interview_env interview_props ops).2
                    ++ (step interview_env interview_props w (Emit EvCallEnd)).2)
    = [ {| cf_interviewId := Some (lit "i1");
           cf_userId := Some (lit "u1");
           cf_transcript := [ {| role := lit "assistant"; content := lit "Hello" |} ];
           cf_feedbackId := None |} ]
  ∧ navigations (step interview_env interview_props w (Emit EvCallEnd)).2 = [].
Proof.
  set (ops := [ClickCall; StartSettled (Resolved ()); Emit EvCallStart;
               Emit (EvMessage (Some (final_transcript (lit "Hello"))))]).
  assert (never_finished interview_env interview_props ops) as H1.
  { unfold never_finished, ops. simpl. split_and!; by vm_compute. }
  assert (callStatus (agent (step interview_env interview_props
                               (session interview_env interview_props ops).1
                               (Emit EvCallEnd)).1)
          = CallStatus.FINISHED) as H2 by (by vm_compute).
  split; [exact H1|]. split; [exact H2|].
  exact (proj2 (feedback_on_first_FINISHED interview_env interview_props ops
                  (Emit EvCallEnd) H1 H2)).
Defined.

(** A final transcript that arrives while the status is FINISHED changes the
    buffer, so the effect runs again and the feedback action is called a
    second time. *)
Lemma late_transcript_calls_feedback_again :
  let ops := [ClickCall; StartSettled (Resolved ()); Emit EvCallStart; Emit EvCallEnd;
              Emit (EvMessage (Some (final_transcript (lit "Bye"))))] in
  feasible interview_env interview_props ops = true
  ∧ feedback_calls (session interview_env interview_props ops).2
    = [ {| cf_interviewId := Some (lit "i1"); cf_userId := Some (lit "u1");
           cf_transcript := []; cf_feedbackId := None |};
        {| cf_interviewId := Some (lit "i1"); cf_userId := Some (lit "u1");
           cf_transcript := [ {| role := lit "assistant"; content := lit "Bye" |} ];
           cf_feedbackId := None |} ].
Proof. by vm_compute. Qed.

(** ** What changes the status *)

Lemma callStatus_onMessage message s :
  callStatus (onMessage message s).1 = callStatus s.
Proof.
  unfold onMessage. destruct message as [m|]; [|done].
  destruct (_ && _); [|done]. by destruct (msg_transcript m).
Qed.

Lemma wired_listener_Some name h :
  wired_listener name = Some h → (name, h) ∈ wired.
Proof.
  unfold wired_listener. intros H.
  apply fmap_Some in H as ([i [n h']] & Hfind & ->).
  apply list_find_Some in Hfind as (Hi & Hn & _). simpl in *. subst n.
  by eapply list_elem_of_lookup_2.
Qed.

(** C2, as the specification states it, fails: a click on Call changes the
    status from INACTIVE to CONNECTING, and no SDK event is involved. *)
Lemma handleCall_changes_status_without_event :
  ¬ status_driven_by_sdk_only interview_env interview_props.
Proof.
  intros H. specialize (H [] ClickCall eq_refl).
  assert (is_sdk_event ClickCall = true) as Hev; [|discriminate Hev].
  apply H. by vm_compute.
Qed.

(** C2 (amended): during a session the status changes only in response to an
    SDK-emitted [call-start] (to ACTIVE), [call-end] (to FINISHED) or [error]
    event (to INACTIVE, also when the error listener resumes), or in the
    component's own [handleCall] (the click sets CONNECTING, or INACTIVE
    without an id; its [catch] sets INACTIVE when [vapi.start] fails) and
    [handleDisconnect] (FINISHED, or INACTIVE when [vapi.stop] throws);
    message and speech events, other events, a resolved [vapi.start] and a
    settled [createFeedback] never change it.  It becomes ACTIVE only on the
    [call-start] event. *)
Theorem status_changes_have_cause env props ops op :
  let w := (session env props ops).1 in
  let after := callStatus (agent (step env props w op).1) in
  after ≠ callStatus (agent w) →
  after ∈ status_targets env props op
  ∧ (after = CallStatus.ACTIVE → ∃ e, op = Emit e ∧ event_name e = lit "call-start").
Proof.
  cbv zeta. rewrite step_agent, session_listeners.
  set (s := agent (session env props ops).1).
  destruct op as [e|nested r| |r|nested r|stop|r]; unfold perform.
  - rewrite dispatch_wired.
    destruct (wired_listener (event_name e)) as [h|] eqn:Hl; [|done].
    apply wired_listener_Some in Hl. rewrite wired_eq in Hl.
    rewrite !elem_of_cons, elem_of_nil in Hl.
    destruct Hl as [Hl|[Hl|[Hl|[Hl|[Hl|[Hl|[]]]]]]];
      injection Hl as Hname ->; simpl invoke; unfold status_targets;
      rewrite Hname; intros Hch.
    + split; [compute_done|]. intros _. by exists e.
    + split; [compute_done|]. intros Hact. by vm_compute in Hact.
    + by rewrite callStatus_onMessage in Hch.
    + done.
    + done.
    + rewrite onError_state in *. simpl in *.
      case_bool_decide; [done|].
      split; [compute_done|]. intros Hact. by vm_compute in Hact.
  - intros _. rewrite onError_resume_state. simpl.
    split; [compute_done|]. intros Hact. by vm_compute in Hact.
  - intros _. unfold status_targets, id_is_empty.
    unfold handleCall, andThen, flowId, is_generate, WORKFLOW_ID.
    case_bool_decide; cbn [flow_truthy];
      destruct (negb _); simpl;
      (split; [compute_done|]); intros Hact; by vm_compute in Hact.
  - destruct r as [[]|e]; [done|]. intros Hch. simpl status_targets.
    destruct e; simpl in *; try done;
      (split; [compute_done|]); intros Hact; by vm_compute in Hact.
  - intros _. simpl status_targets.
    destruct r; simpl; (split; [compute_done|]); intros Hact; by vm_compute in Hact.
  - intros _. simpl status_targets.
    destruct stop; simpl; (split; [compute_done|]); intros Hact; by vm_compute in Hact.
  - done.
Qed.

Lemma status_changes_have_cause_witness :
  let w := (session interview_env interview_props [ClickCall; Emit EvCallStart]).1 in
  callStatus (agent (step interview_env interview_props w (ClickDisconnect None)).1)
    ≠ callStatus (agent w)
  ∧ callStatus (agent (step interview_env interview_props w (ClickDisconnect None)).1)
    ∈ [CallStatus.FINISHED].
Proof.
  assert (callStatus (agent (step interview_env interview_props
                               (session interview_env interview_props
                                  [ClickCall; Emit EvCallStart]).1
                               (ClickDisconnect None)).1)
          ≠ callStatus (agent (session interview_env interview_props
                                 [ClickCall; Emit EvCallStart]).1))
    as H by (by vm_compute).
  split; [exact H|].
  exact (proj1 (status_changes_have_cause interview_env interview_props
                  [ClickCall; Emit EvCallStart] (ClickDisconnect None) H)).
Defined.

(** * More of the component *)

(** ** Sessions, piece by piece *)

Lemma run_from_app env props ops1 ops2 w :
  run_from env props w (ops1 ++ ops2)
  = ((run_from env props (run_from env props w ops1).1 ops2).1,
     (run_from env props w ops1).2
     ++ (run_from env props (run_from env props w ops1).1 ops2).2).
Proof.
  revert w. induction ops1 as [|op ops1 IH]; intros w; simpl.
  - by destruct (run_from env props w ops2).
  - destruct (step env props w op) as [w1 a1]. rewrite IH.
    destruct (run_from env props w1 ops1) as [w2 a2]. simpl.
    by rewrite app_assoc.
Qed.

Lemma run_from_cons env props w op ops :
  (run_from env props w (op :: ops)).1
  = (run_from env props (step env props w op).1 ops).1.
Proof.
  cbn [run_from]. destruct (step env props w op) as [w1 a1]. cbn [fst].
  by destruct (run_from env props w1 ops).
Qed.

Lemma session_app env props ops1 ops2 :
  (session env props (ops1 ++ ops2)).1
  = (run_from env props (session env props ops1).1 ops2).1.
Proof. by rewrite !session_unfold, run_from_app. Qed.

Lemma wired_listener_spec name :
  wired_listener name
  = if bool_decide (name = lit "call-start") then Some OnCallStart
    else if bool_decide (name = lit "call-end") then Some OnCallEnd
    else if bool_decide (name = lit "message") then Some OnMessage
    else if bool_decide (name = lit "speech-start") then Some OnSpeechStart
    else if bool_decide (name = lit "speech-end") then Some OnSpeechEnd
    else if bool_decide (name = lit "error") then Some OnError
    else None.
Proof.
  unfold wired_listener. rewrite wired_eq. cbn [list_find fst].
  destruct (decide (name = lit "call-start")) as [->|?]; [reflexivity|].
  rewrite (decide_False (P := lit "call-start" = name)) by congruence.
  rewrite (bool_decide_eq_false_2 (name = lit "call-start")) by done.
  destruct (decide (name = lit "call-end")) as [->|?]; [reflexivity|].
  rewrite (decide_False (P := lit "call-end" = name)) by congruence.
  rewrite (bool_decide_eq_false_2 (name = lit "call-end")) by done.
  destruct (decide (name = lit "message")) as [->|?]; [reflexivity|].
  rewrite (decide_False (P := lit "message" = name)) by congruence.
  rewrite (bool_decide_eq_false_2 (name = lit "message")) by done.
  destruct (decide (name = lit "speech-start")) as [->|?]; [reflexivity|].
  rewrite (decide_False (P := lit "speech-start" = name)) by congruence.
  rewrite (bool_decide_eq_false_2 (name = lit "speech-start")) by done.
  destruct (decide (name = lit "speech-end")) as [->|?]; [reflexivity|].
  rewrite (decide_False (P := lit "speech-end" = name)) by congruence.
  rewrite (bool_decide_eq_false_2 (name = lit "speech-end")) by done.
  destruct (decide (name = lit "error")) as [->|?]; [reflexivity|].
  rewrite (decide_False (P := lit "error" = name)) by congruence.
  rewrite (bool_decide_eq_false_2 (name = lit "error")) by done.
  reflexivity.
Qed.

Lemma listened_wired_eq :
  listened wired = [ lit "call-start"; lit "call-end"; lit "message";
                     lit "speech-start"; lit "speech-end"; lit "error" ].
Proof. reflexivity. Qed.

(** What an emitted event runs in a session: the listener of its name, or
    nothing. *)
Lemma emit_cases e s :
  (event_name e = lit "call-start" ∧ dispatch wired e s = onCallStart s)
  ∨ (event_name e = lit "call-end" ∧ dispatch wired e s = onCallEnd s)
  ∨ (event_name e = lit "message"
     ∧ dispatch wired e s
       = onMessage (match e with EvMessage m => m | _ => None end) s)
  ∨ (event_name e = lit "speech-start" ∧ dispatch wired e s = onSpeechStart s)
  ∨ (event_name e = lit "speech-end" ∧ dispatch wired e s = onSpeechEnd s)
  ∨ (event_name e = lit "error"
     ∧ dispatch wired e s
       = onError (match e with EvError err => err | _ => Falsy end) s)
  ∨ ((event_name e ∉ listened wired) ∧ dispatch wired e s = (s, [])).
Proof.
  rewrite dispatch_wired, wired_listener_spec.
  case_bool_decide; [by left|right].
  case_bool_decide; [by left|right].
  case_bool_decide; [by left|right].
  case_bool_decide; [by left|right].
  case_bool_decide; [by left|right].
  case_bool_decide; [by left|right].
  split; [|done]. rewrite listened_wired_eq, !not_elem_of_cons.
  split_and!; [done..|apply not_elem_of_nil].
Qed.

Ltac name_clash :=
  match goal with
  | H1 : ?n = lit ?a, H2 : ?n = lit ?b |- _ =>
      exfalso; rewrite H1 in H2; vm_compute in H2; discriminate H2
  | H1 : ?n = lit ?a, H2 : ?n ≠ lit ?a |- _ => by destruct H2
  end.

(** Decides the tests on the name of an event once the name is known. *)
Ltac known_name H :=
  rewrite ?H; repeat (case_bool_decide; try name_clash);
  try (exfalso; vm_compute in H; discriminate H).

Lemma emit_step env props w e :
  listeners w = wired →
  agent (step env props w (Emit e)).1 = (dispatch wired e (agent w)).1.
Proof. intros Hw. by rewrite step_agent, Hw. Qed.

Lemma perform_other_frame env props l op s :
  (∀ e, op ≠ Emit e) →
  messages (perform env props l op s).1 = messages s
  ∧ isSpeaking (perform env props l op s).1 = isSpeaking s
  ∧ lastMessage (perform env props l op s).1 = lastMessage s.
Proof.
  intros Hop. destruct op as [e|nested r| |r|nested r|stop|r]; simpl.
  - by destruct (Hop e).
  - by destruct r.
  - unfold handleCall, andThen. simpl.
    destruct (negb _); [done|]. by destruct (is_generate props).
  - destruct r as [[]|[]]; done.
  - by destruct r.
  - by destruct stop.
  - done.
Qed.

(** ** The speaking indicator *)

Lemma isSpeaking_onMessage message s :
  isSpeaking (onMessage message s).1 = isSpeaking s.
Proof.
  unfold onMessage. destruct message as [m|]; [|done].
  destruct (_ && _); [|done]. by destruct (msg_transcript m).
Qed.

Lemma step_speaking env props w op :
  listeners w = wired →
  isSpeaking (agent (step env props w op).1)
  = default (isSpeaking (agent w)) (speech_of op).
Proof.
  intros Hw.
  assert ((∃ e, op = Emit e) ∨ ∀ e, op ≠ Emit e) as [[e ->]|Hop]
    by (destruct op; eauto).
  - rewrite emit_step by done. unfold speech_of.
    destruct (emit_cases e (agent w)) as
      [[Hn ->]|[[Hn ->]|[[Hn ->]|[[Hn ->]|[[Hn ->]|[[Hn ->]|[Hn ->]]]]]]].
    + by known_name Hn.
    + by known_name Hn.
    + rewrite isSpeaking_onMessage. by known_name Hn.
    + by known_name Hn.
    + by known_name Hn.
    + rewrite onError_state. by known_name Hn.
    + rewrite listened_wired_eq, !not_elem_of_cons in Hn.
      destruct Hn as (_ & _ & _ & H1 & H2 & _).
      by rewrite !bool_decide_eq_false_2.
  - rewrite step_agent.
    destruct (perform_other_frame env props (listeners w) op (agent w) Hop)
      as (_ & -> & _).
    destruct op as [e| | | | | |]; [by destruct (Hop e)|done..].
Qed.

Lemma run_from_speaking env props ops : ∀ w,
  listeners w = wired →
  isSpeaking (agent (run_from env props w ops).1)
  = default (isSpeaking (agent w)) (last (omap speech_of ops)).
Proof.
  induction ops as [|op ops IH]; intros w Hw; [done|].
  rewrite run_from_cons, IH by (by rewrite step_listeners).
  rewrite step_speaking by done.
  change (omap speech_of (op :: ops))
    with (match speech_of op with
          | Some b => b :: omap speech_of ops
          | None => omap speech_of ops
          end).
  destruct (speech_of op) as [b|]; [|done].
  rewrite last_cons. by destruct (last (omap speech_of ops)).
Qed.

(** X1: the speaking flag, and with it the animation next to the avatar, is on
    exactly when the last speech event of the session was [speech-start]. *)
Theorem speaking_follows_last_speech_event env props ops :
  isSpeaking (agent (session env props ops).1)
  = default false (last (omap speech_of ops))
  ∧ speak_animation (render props (agent (session env props ops).1))
    = default false (last (omap speech_of ops)).
Proof.
  assert (isSpeaking (agent (session env props ops).1)
          = default false (last (omap speech_of ops))) as H; [|done].
  rewrite session_unfold. by rewrite run_from_speaking.
Qed.

(** ** Events the component does not listen to *)

(** X15: an event under any other name than the six leaves the component as it
    is: no state changes, no call is made, the effect does not run. *)
Theorem other_events_ignored env props ops e :
  event_name e ∉ listened wired →
  step env props (session env props ops).1 (Emit e)
  = ((session env props ops).1, []).
Proof.
  intros Hn. unfold step. rewrite session_listeners. unfold perform.
  destruct (emit_cases e (agent (session env props ops).1)) as
    [[Hn' _]|[[Hn' _]|[[Hn' _]|[[Hn' _]|[[Hn' _]|[[Hn' _]|[_ ->]]]]]]];
    try (exfalso; apply Hn; rewrite Hn', listened_wired_eq, !elem_of_cons; tauto).
  unfold rerender. rewrite bool_decide_eq_true_2 by done.
  rewrite <- (session_listeners env props ops) at 1.
  by destruct (session env props ops).1.
Qed.

Lemma other_events_ignored_witness :
  (event_name (EvOther (lit "volume-level")) ∉ listened wired)
  ∧ step interview_env interview_props
      (session interview_env interview_props [ClickCall; Emit EvCallStart]).1
      (Emit (EvOther (lit "volume-level")))
    = ((session interview_env interview_props [ClickCall; Emit EvCallStart]).1, []).
Proof.
  assert (event_name (EvOther (lit "volume-level")) ∉ listened wired) as H.
  { apply (bool_decide_unpack _). by vm_compute. }
  split; [exact H|].
  exact (other_events_ignored interview_env interview_props
           [ClickCall; Emit EvCallStart] (EvOther (lit "volume-level")) H).
Defined.

(** ** The buffer over a session *)

Lemma onMessage_buffer message s :
  ∃ suffix,
    messages (onMessage message s).1 = messages s ++ suffix
    ∧ length suffix ≤ (if message is Some _ then 1 else 0)
    ∧ contents_trimmed suffix.
Proof.
  assert (∀ n, ∃ suffix, messages s = messages s ++ suffix
                         ∧ length suffix ≤ n ∧ contents_trimmed suffix) as Hsame.
  { intros n. exists []. split_and!;
      [by rewrite app_nil_r | simpl; lia | constructor]. }
  unfold onMessage. destruct message as [m|]; [|apply Hsame].
  destruct (_ && _); [|apply Hsame].
  destruct (msg_transcript m) as [t|]; [|apply Hsame].
  simpl. destruct (same_as_last _ _); [apply Hsame|].
  eexists [_]. split_and!; [done | simpl; lia |].
  constructor; [apply trim_idemp | constructor].
Qed.

Lemma step_buffer env props w op :
  listeners w = wired →
  ∃ suffix,
    messages (agent (step env props w op).1) = messages (agent w) ++ suffix
    ∧ length suffix ≤ (if is_message_op op then 1 else 0).
Proof.
  intros Hw.
  assert ((∃ e, op = Emit e) ∨ ∀ e, op ≠ Emit e) as [[e ->]|Hop]
    by (destruct op; eauto).
  - rewrite emit_step by done.
    destruct (emit_cases e (agent w)) as
      [[Hn ->]|[[Hn ->]|[[Hn ->]|[[Hn ->]|[[Hn ->]|[[Hn ->]|[Hn ->]]]]]]];
      try (exists []; rewrite ?onError_state; simpl; split; [by rewrite app_nil_r | lia]).
    destruct (onMessage_buffer (match e with EvMessage m => m | _ => None end) (agent w))
      as (suffix & Hs & Hlen & _).
    exists suffix. split; [done|].
    destruct e as [| |[m|]| | | |]; simpl in *; lia.
  - rewrite step_agent.
    destruct (perform_other_frame env props (listeners w) op (agent w) Hop)
      as (-> & _).
    exists []. split; [by rewrite app_nil_r | simpl; lia].
Qed.

Lemma run_from_buffer env props ops : ∀ w,
  listeners w = wired →
  ∃ suffix,
    messages (agent (run_from env props w ops).1) = messages (agent w) ++ suffix
    ∧ length suffix ≤ count_ops is_message_op ops.
Proof.
  induction ops as [|op ops IH]; intros w Hw.
  - exists []. split; [by rewrite app_nil_r | done].
  - rewrite run_from_cons.
    destruct (step_buffer env props w op Hw) as (s1 & H1 & L1).
    destruct (IH (step env props w op).1) as (s2 & H2 & L2);
      [by rewrite step_listeners|].
    exists (s1 ++ s2). rewrite H2, H1, <- app_assoc. split; [done|].
    rewrite length_app. simpl. lia.
Qed.

(** X2: the buffer only grows: what is buffered at some point of a session is a
    prefix of what is buffered at any later point, and only [message] events
    that carry a message add to it, one message at most each. *)
Theorem buffer_only_grows env props ops1 ops2 :
  messages (agent (session env props ops1).1)
    `prefix_of` messages (agent (session env props (ops1 ++ ops2)).1)
  ∧ length (messages (agent (session env props (ops1 ++ ops2)).1))
    ≤ length (messages (agent (session env props ops1).1))
      + count_ops is_message_op ops2.
Proof.
  rewrite session_app.
  destruct (run_from_buffer env props ops2 (session env props ops1).1)
    as (suffix & -> & Hlen); [apply session_listeners|].
  split; [by exists suffix|]. rewrite length_app. lia.
Qed.

Lemma contents_trimmed_onMessage message :
  preserves (λ s, contents_trimmed (messages s)) (onMessage message).
Proof.
  intros s Hs.
  destruct (onMessage_buffer message s) as (suffix & -> & _ & Ht).
  by apply Forall_app.
Qed.

Lemma session_contents_trimmed env props ops :
  contents_trimmed (messages (agent (session env props ops).1)).
Proof.
  apply (session_invariant (λ s, contents_trimmed (messages s)));
    [by intros v Hv s | by intros b s | apply contents_trimmed_onMessage |].
  constructor.
Qed.

(** X3: every content in the buffer is a fixed point of trimming, at every point
    of a session: it has no white space at either end. *)
Theorem buffer_contents_trimmed env props ops :
  Forall (λ x, trim (content x) = content x ∧ trimmed (content x))
    (messages (agent (session env props ops).1)).
Proof.
  eapply Forall_impl; [apply session_contents_trimmed|].
  intros x Hx. split; [done|]. rewrite <- Hx. apply trim_trimmed.
Qed.

(** ** A transcript sent again *)

Lemma silent_trace (h : Handler) s :
  emits_only (λ _, False) h → (h s).2 = [].
Proof.
  intros H. specialize (H s). destruct (h s).2 as [|a tr]; [done|].
  by apply Forall_cons in H as [[] _].
Qed.

Lemma step_final_message env props ops m :
  step env props (session env props ops).1 (Emit (EvMessage (Some m)))
  = ({| agent := (onMessage (Some m) (agent (session env props ops).1)).1;
        listeners := wired |},
     rerender props (agent (session env props ops).1)
       (onMessage (Some m) (agent (session env props ops).1)).1).
Proof.
  unfold step. rewrite session_listeners. unfold perform.
  rewrite dispatch_wired.
  change (wired_listener (event_name (EvMessage (Some m)))) with (Some OnMessage).
  cbn [invoke].
  pose proof (silent_trace (onMessage (Some m)) (agent (session env props ops).1)
                (onMessage_silent _ _)) as Hsilent.
  destruct (onMessage (Some m) (agent (session env props ops).1)) as [s' acts].
  simpl in *. by subst acts.
Qed.

(** X5: a final transcript whose trimmed text is not empty and equals the last
    buffered content is dropped without a trace: the state stays as it is, no
    call is made and the effect does not run again. *)
Theorem repeated_transcript_is_ignored env props ops m t x :
  is_final_transcript (Some m) → msg_transcript m = Some t →
  last (messages (agent (session env props ops).1)) = Some x →
  trim (content x) = trim t → trim t ≠ empty →
  step env props (session env props ops).1 (Emit (EvMessage (Some m)))
  = ((session env props ops).1, []).
Proof.
  intros Hf Ht Hx Heq Hne. rewrite step_final_message.
  rewrite (onMessage_drops_repeat m t _ x) by done.
  unfold rerender. rewrite bool_decide_eq_true_2 by done.
  rewrite <- (session_listeners env props ops).
  by destruct (session env props ops).1.
Qed.

Lemma repeated_transcript_is_ignored_witness :
  let ops := [Emit (EvMessage (Some (final_transcript (lit "Hello"))))] in
  let again := final_transcript (lit " Hello ") in
  let x := {| role := lit "assistant"; content := lit "Hello" |} in
  is_final_transcript (Some again)
  ∧ msg_transcript again = Some (lit " Hello ")
  ∧ last (messages (agent (session interview_env interview_props ops).1)) = Some x
  ∧ trim (content x) = trim (lit " Hello ")
  ∧ trim (lit " Hello ") ≠ empty
  ∧ step interview_env interview_props
      (session interview_env interview_props ops).1 (Emit (EvMessage (Some again)))
    = ((session interview_env interview_props ops).1, []).
Proof.
  set (ops := [Emit (EvMessage (Some (final_transcript (lit "Hello"))))]).
  set (again := final_transcript (lit " Hello ")).
  set (x := {| role := lit "assistant"; content := lit "Hello" |}).
  assert (is_final_transcript (Some again)) as H1
    by (by exists again, (lit " Hello ")).
  assert (msg_transcript again = Some (lit " Hello ")) as H2 by reflexivity.
  assert (last (messages (agent (session interview_env interview_props ops).1))
          = Some x) as H3 by (by vm_compute).
  assert (trim (content x) = trim (lit " Hello ")) as H4 by (by vm_compute).
  assert (trim (lit " Hello ") ≠ empty) as H5 by (by vm_compute).
  split_and!; [exact H1 | exact H2 | exact H3 | exact H4 | exact H5 |].
  exact (repeated_transcript_is_ignored interview_env interview_props ops again
           (lit " Hello ") x H1 H2 H3 H4 H5).
Defined.

(** ** Feedback, again *)

(** X6: while the status is FINISHED and [type] is not ["generate"], a message
    event that changes the buffer makes the effect run again: the feedback
    action is called once more, with the ids of the props and the buffer as
    it is after the event, the earlier messages followed by the new one. *)
Theorem transcript_while_FINISHED_repeats_feedback env props ops m :
  let w := (session env props ops).1 in
  let after := agent (step env props w (Emit (EvMessage (Some m)))).1 in
  callStatus (agent w) = CallStatus.FINISHED →
  type props ≠ Some (lit "generate") →
  messages after ≠ messages (agent w) →
  (∃ t, msg_transcript m = Some t
        ∧ messages after
          = messages (agent w)
            ++ [ {| role := default (lit "assistant") (msg_role m);
                    content := trim t |} ])
  ∧ feedback_calls (step env props w (Emit (EvMessage (Some m)))).2
    = [ {| cf_interviewId := interviewId props;
           cf_userId := userId props;
           cf_transcript := messages after;
           cf_feedbackId := feedbackId props |} ].
Proof.
  cbv zeta. rewrite step_final_message. cbn [fst snd agent].
  intros Hfin Htype Hch. split.
  - destruct (bool_decide (msg_type m = Some (lit "transcript"))) eqn:Ht;
      [|exfalso; apply Hch; unfold onMessage; by rewrite Ht].
    destruct (bool_decide (msg_transcriptType m = Some (lit "final"))) eqn:Htt;
      [|exfalso; apply Hch; unfold onMessage; by rewrite Ht, Htt].
    destruct (msg_transcript m) as [t|] eqn:Htr;
      [|exfalso; apply Hch; unfold onMessage; by rewrite Ht, Htt, Htr].
    apply bool_decide_eq_true in Ht, Htt. exists t. split; [done|].
    rewrite (onMessage_final m t) in * by (done || by exists m, t).
    cbn [messages] in *. by destruct (same_as_last _ _).
  - unfold rerender.
    rewrite bool_decide_eq_false_2 by (by intros [_ E]).
    rewrite finishedDispatch_FINISHED by (by rewrite callStatus_onMessage).
    unfold is_generate. by rewrite bool_decide_eq_false_2.
Qed.

Lemma transcript_while_FINISHED_repeats_feedback_witness :
  let ops := [ClickCall; Emit EvCallStart;
              Emit (EvMessage (Some (final_transcript (lit "Hello"))));
              Emit EvCallEnd] in
  let w := (session interview_env interview_props ops).1 in
  let bye := final_transcript (lit " Bye") in
  callStatus (agent w) = CallStatus.FINISHED
  ∧ type interview_props ≠ Some (lit "generate")
  ∧ messages (agent (step interview_env interview_props w
                       (Emit (EvMessage (Some bye)))).1) ≠ messages (agent w)
  ∧ feedback_calls (step interview_env interview_props w
                      (Emit (EvMessage (Some bye)))).2
    = [ {| cf_interviewId := Some (lit "i1");
           cf_userId := Some (lit "u1");
           cf_transcript := [ {| role := lit "assistant"; content := lit "Hello" |};
                              {| role := lit "assistant"; content := lit "Bye" |} ];
           cf_feedbackId := None |} ].
Proof.
  set (ops := [ClickCall; Emit EvCallStart;
               Emit (EvMessage (Some (final_transcript (lit "Hello"))));
               Emit EvCallEnd]).
  set (w := (session interview_env interview_props ops).1).
  set (bye := final_transcript (lit " Bye")).
  assert (callStatus (agent w) = CallStatus.FINISHED) as H1 by (by vm_compute).
  assert (type interview_props ≠ Some (lit "generate")) as H2 by (by vm_compute).
  assert (messages (agent (step interview_env interview_props w
                             (Emit (EvMessage (Some bye)))).1) ≠ messages (agent w))
    as H3 by (by vm_compute).
  split_and!; [exact H1 | exact H2 | exact H3 |].
  exact (proj2 (transcript_while_FINISHED_repeats_feedback interview_env
                  interview_props ops bye H1 H2 H3)).
Defined.

Lemma run_from_cons_trace env props w op ops :
  (run_from env props w (op :: ops)).2
  = (step env props w op).2 ++ (run_from env props (step env props w op).1 ops).2.
Proof.
  cbn [run_from]. destruct (step env props w op) as [w1 a1]. cbn [fst snd].
  by destruct (run_from env props w1 ops).
Qed.

Lemma feedback_calls_app tr1 tr2 :
  feedback_calls (tr1 ++ tr2) = feedback_calls tr1 ++ feedback_calls tr2.
Proof. apply omap_app. Qed.

Lemma step_no_feedback_generate env props w op :
  is_generate props = true → feedback_calls (step env props w op).2 = [].
Proof.
  intros Hg. rewrite step_trace, feedback_calls_app, perform_no_feedback.
  unfold rerender, finishedDispatch. rewrite Hg.
  by repeat case_bool_decide.
Qed.

(** X7: on the page that generates an interview the feedback action is never
    called, whatever happens in the session. *)
Theorem generate_mode_never_creates_feedback env props ops :
  type props = Some (lit "generate") →
  feedback_calls (session env props ops).2 = [].
Proof.
  intros Ht.
  assert (is_generate props = true) as Hg by (by apply bool_decide_eq_true_2).
  rewrite session_trace, feedback_calls_app.
  change (feedback_calls eventWiring) with (@nil CreateFeedbackParams).
  generalize (mount props).1. induction ops as [|op ops IH]; intros w; [done|].
  rewrite run_from_cons_trace, feedback_calls_app.
  by rewrite step_no_feedback_generate, IH.
Qed.

Lemma generate_mode_never_creates_feedback_witness :
  type generate_props = Some (lit "generate")
  ∧ feedback_calls
      (session generate_env generate_props
         [ClickCall; Emit EvCallStart;
          Emit (EvMessage (Some (final_transcript (lit "Hi")))); Emit EvCallEnd]).2
    = [].
Proof.
  split; [reflexivity|].
  exact (generate_mode_never_creates_feedback generate_env generate_props _ eq_refl).
Defined.

(** ** Calls to the SDK follow the clicks *)

Lemma starts_app tr1 tr2 : starts (tr1 ++ tr2) = starts tr1 ++ starts tr2.
Proof. apply omap_app. Qed.

Lemma stops_app tr1 tr2 : stops (tr1 ++ tr2) = stops tr1 ++ stops tr2.
Proof. apply omap_app. Qed.

Lemma logging_no_sdk tr : Forall is_logging tr → starts tr = [] ∧ stops tr = [].
Proof.
  induction 1 as [|a tr Ha _ [IH1 IH2]]; [done|].
  destruct a; simpl in Ha; try contradiction; (split; [exact IH1 | exact IH2]).
Qed.

Lemma rerender_no_sdk props before after :
  starts (rerender props before after) = []
  ∧ stops (rerender props before after) = [].
Proof.
  unfold rerender, finishedDispatch.
  repeat case_bool_decide; try done. by destruct (is_generate props).
Qed.

Lemma perform_sdk_calls env props l op s :
  length (starts (perform env props l op s).2) ≤ (if is_click_call op then 1 else 0)
  ∧ length (stops (perform env props l op s).2)
    = (if is_click_disconnect op then 1 else 0).
Proof.
  destruct op as [e|nested r| |r|nested r|stop|r]; simpl.
  - by destruct (logging_no_sdk _ (dispatch_logs l e s)) as [-> ->].
  - by destruct r.
  - unfold handleCall, andThen. simpl.
    destruct (negb _); [simpl; lia|].
    destruct (is_generate props); simpl; lia.
  - destruct r as [[]|[]]; done.
  - by destruct r.
  - by destruct stop.
  - unfold handleGenerateFeedback_resume.
    destruct r as [res|err]; [destruct (feedback_saved res)|]; done.
Qed.

(** X8: the component starts a call only on a click on Call, at most once per
    click, and stops one exactly once per click on End; no event and no
    settled promise makes it call [vapi.start] or [vapi.stop]. *)
Theorem sdk_calls_follow_clicks env props ops :
  length (starts (session env props ops).2) ≤ count_ops is_click_call ops
  ∧ length (stops (session env props ops).2) = count_ops is_click_disconnect ops.
Proof.
  rewrite session_trace, starts_app, stops_app.
  change (starts eventWiring) with (@nil (Flow * list (jsstring * jsstring))).
  change (stops eventWiring) with (@nil unit). cbn [app].
  generalize (mount props).1. induction ops as [|op ops IH]; intros w; [done|].
  rewrite run_from_cons_trace, starts_app, stops_app, step_trace, starts_app, stops_app.
  destruct (rerender_no_sdk props (agent w) (agent (step env props w op).1))
    as [-> ->].
  destruct (perform_sdk_calls env props (listeners w) op (agent w)) as [H1 H2].
  destruct (IH (step env props w op).1) as [IH1 IH2].
  rewrite !app_nil_r, !length_app. cbn [count_ops]. lia.
Qed.

(** ** Registering and unregistering *)

Lemma remove_first_middle x l r :
  x ∉ l → remove_first x (l ++ x :: r) = l ++ r.
Proof.
  induction l as [|y l IH]; simpl; intros Hx.
  - by rewrite bool_decide_eq_true_2.
  - apply not_elem_of_cons in Hx as [Hxy Hx].
    rewrite bool_decide_eq_false_2 by done. by rewrite IH.
Qed.

Lemma vapi_off_latest event h l r :
  (event, h) ∉ r → vapi_off event h (l ++ (event, h) :: r) = l ++ r.
Proof.
  intros Hr. unfold vapi_off.
  rewrite reverse_app, reverse_cons, <- app_assoc. simpl.
  rewrite remove_first_middle by (by rewrite elem_of_reverse).
  by rewrite reverse_app, !reverse_involutive.
Qed.

(** X16: whatever listeners the SDK already holds, the first effect adds the
    component's six after them, and its cleanup takes exactly these away
    again: the listeners of others are left as they were. *)
Theorem wiring_round_trip (others : Listeners) :
  foldl sdk_apply others eventWiring = others ++ wired
  ∧ foldl sdk_apply (foldl sdk_apply others eventWiring) eventWiring_cleanup = others.
Proof.
  assert (foldl sdk_apply others eventWiring = others ++ wired) as Hon.
  { rewrite wired_eq. unfold eventWiring. cbn [foldl sdk_apply]. unfold vapi_on.
    by rewrite <- !app_assoc. }
  split; [done|]. rewrite Hon, wired_eq.
  unfold eventWiring_cleanup. cbn [foldl sdk_apply].
  rewrite vapi_off_latest by compute_done.
  rewrite vapi_off_latest by compute_done.
  rewrite vapi_off_latest by compute_done.
  rewrite vapi_off_latest by compute_done.
  rewrite vapi_off_latest by compute_done.
  rewrite (vapi_off_latest _ _ others []) by compute_done.
  apply app_nil_r.
Qed.

(** ** Starting a call, continued *)

Lemma perform_starts_flow env props l op s :
  Forall (λ c, c.1 = flowId env props ∧ flow_truthy c.1 = true)
    (starts (perform env props l op s).2).
Proof.
  destruct op as [e|nested r| |r|nested r|stop|r]; simpl.
  - destruct (logging_no_sdk _ (dispatch_logs l e s)) as [-> _]. constructor.
  - destruct r; constructor.
  - unfold handleCall, andThen. simpl.
    destruct (flow_truthy (flowId env props)) eqn:Hf; simpl; [|constructor].
    destruct (is_generate props); by repeat constructor.
  - destruct r as [[]|[]]; constructor.
  - destruct r; constructor.
  - destruct stop; constructor.
  - unfold handleGenerateFeedback_resume.
    destruct r as [res|err]; [destruct (feedback_saved res)|]; constructor.
Qed.

(** X9: [vapi.start] is never called with an empty id: every start of a
    session gets the id selected by [type], the workflow id of the
    environment on the page that generates an interview and the interviewer
    constant on any other, and that id is not empty. *)
Theorem starts_have_an_id env props ops :
  Forall (λ c,
            c.1 = (if bool_decide (type props = Some (lit "generate"))
                   then FlowId (default empty (NEXT_PUBLIC_VAPI_WORKFLOW_ID env))
                   else interviewer env)
            ∧ flow_truthy c.1 = true)
    (starts (session env props ops).2).
Proof.
  rewrite session_trace, starts_app.
  change (starts eventWiring) with (@nil (Flow * list (jsstring * jsstring))).
  cbn [app].
  generalize (mount props).1. induction ops as [|op ops IH]; intros w; [constructor|].
  rewrite run_from_cons_trace, starts_app, step_trace, starts_app.
  destruct (rerender_no_sdk props (agent w) (agent (step env props w op).1))
    as [-> _].
  rewrite app_nil_r. apply Forall_app. split; [apply perform_starts_flow | apply IH].
Qed.

Lemma join_nil_inv sep (l : list jsstring) :
  (∀ x, x ∈ l → x ≠ []) → join sep l = [] → l = [].
Proof.
  destruct l as [|x [|y l]]; [done| |]; intros Hne Hj; exfalso.
  - apply (Hne x); [by left | done].
  - simpl in Hj. apply app_eq_nil in Hj as [Hx _].
    apply (Hne x); [by left | done].
Qed.

(** X10: on an interview page with an id, a click on Call passes one variable to
    [vapi.start], the questions, one per line behind a dash; it is the empty
    string exactly when there are no questions, given or not. *)
Theorem questions_variable env props s :
  type props ≠ Some (lit "generate") → flow_truthy (interviewer env) = true →
  ∃ formatted,
    starts (handleCall env props s).2
    = [(interviewer env, [(lit "questions", formatted)])]
    ∧ formatted
      = join newline (map (λ q, lit "- " ++ q) (default [] (questions props)))
    ∧ (formatted = empty ↔ default [] (questions props) = []).
Proof.
  intros Ht Hi. eexists. split_and!; [|reflexivity|].
  - unfold handleCall, flowId, is_generate, andThen.
    rewrite bool_decide_eq_false_2 by done. by rewrite Hi.
  - split.
    + intros Hj. apply join_nil_inv in Hj.
      * by apply fmap_nil_inv in Hj.
      * intros x Hx. apply list_elem_of_fmap in Hx as (q & -> & _). done.
    + by intros ->.
Qed.

Lemma questions_variable_witness :
  type interview_props ≠ Some (lit "generate")
  ∧ flow_truthy (interviewer interview_env) = true
  ∧ starts (handleCall interview_env interview_props initialState).2
    = [(FlowAssistant, [(lit "questions", lit "- Why?")])].
Proof.
  assert (type interview_props ≠ Some (lit "generate")) as H1 by (by vm_compute).
  assert (flow_truthy (interviewer interview_env) = true) as H2 by reflexivity.
  split_and!; [exact H1 | exact H2 |].
  destruct (questions_variable interview_env interview_props initialState H1 H2)
    as (formatted & Hs & -> & _).
  exact Hs.
Defined.

(** ** A start that fails *)

(** X11: when [vapi.start] fails, the [catch] of [handleCall] brings the status
    back to INACTIVE, at once when the error carries no response and once the
    body is read (or could not be read) otherwise; it only logs, and touches
    neither the buffer nor the speaking flag. *)
Theorem failed_start_resets_status env props w e nested r :
  let w1 := (step env props w (StartSettled (Rejected e))).1 in
  let w2 := if bool_decide (e ∈ [IsResponse; HasResponse])
            then (step env props w1 (CatchBodySettled nested r)).1 else w1 in
  callStatus (agent w2) = CallStatus.INACTIVE
  ∧ messages (agent w2) = messages (agent w)
  ∧ isSpeaking (agent w2) = isSpeaking (agent w)
  ∧ Forall is_logging (perform env props (listeners w) (StartSettled (Rejected e))
                         (agent w)).2
  ∧ Forall is_logging (perform env props (listeners w) (CatchBodySettled nested r)
                         (agent w)).2.
Proof.
  cbv zeta. split_and!.
  - case_bool_decide; rewrite !step_agent; destruct e, r; try done;
      exfalso; revert select (_ ∉ _); rewrite !not_elem_of_cons; tauto.
  - case_bool_decide; rewrite !step_agent; by destruct e, r.
  - case_bool_decide; rewrite !step_agent; by destruct e, r.
  - destruct e; simpl; by repeat constructor.
  - destruct r; simpl; by repeat constructor.
Qed.

(** ** Ending a call *)

(** X12: when [vapi.stop] throws, the click on End leaves the status INACTIVE: the
    status FINISHED set before the call is never rendered, so the component
    neither navigates nor creates feedback. *)
Theorem disconnect_that_throws env props w err :
  let '(w', tr) := step env props w (ClickDisconnect (Some err)) in
  callStatus (agent w') = CallStatus.INACTIVE
  ∧ stops tr = [()]
  ∧ navigations tr = [] ∧ feedback_calls tr = []
  ∧ messages (agent w') = messages (agent w).
Proof.
  pose proof (step_trace env props w (ClickDisconnect (Some err))) as Htr.
  pose proof (step_agent env props w (ClickDisconnect (Some err))) as Hag.
  destruct (step env props w (ClickDisconnect (Some err))) as [w' tr].
  simpl in *. rewrite Hag in Htr. simpl in Htr.
  rewrite rerender_not_FINISHED in Htr by (by vm_compute).
  subst tr. by rewrite Hag.
Qed.

(** X13: once the status is FINISHED, a [call-end] event changes nothing and makes
    no call: after a click on End, the [call-end] the SDK then emits does not
    run the effect a second time. *)
Theorem call_end_when_FINISHED env props ops :
  callStatus (agent (session env props ops).1) = CallStatus.FINISHED →
  step env props (session env props ops).1 (Emit EvCallEnd)
  = ((session env props ops).1, []).
Proof.
  intros Hfin. unfold step. rewrite session_listeners. unfold perform.
  rewrite dispatch_wired.
  change (wired_listener (event_name EvCallEnd)) with (Some OnCallEnd).
  cbn [invoke]. unfold onCallEnd, setCallStatus.
  rewrite <- Hfin. unfold rerender. cbn [callStatus messages].
  rewrite bool_decide_eq_true_2 by done.
  rewrite <- (session_listeners env props ops).
  by destruct (session env props ops).1 as [[] ?].
Qed.

Lemma call_end_when_FINISHED_witness :
  let ops := [ClickCall; Emit EvCallStart; ClickDisconnect None] in
  callStatus (agent (session interview_env interview_props ops).1)
  = CallStatus.FINISHED
  ∧ step interview_env interview_props
      (session interview_env interview_props ops).1 (Emit EvCallEnd)
    = ((session interview_env interview_props ops).1, []).
Proof.
  set (ops := [ClickCall; Emit EvCallStart; ClickDisconnect None]).
  assert (callStatus (agent (session interview_env interview_props ops).1)
          = CallStatus.FINISHED) as H by (by vm_compute).
  split; [exact H|].
  exact (call_end_when_FINISHED interview_env interview_props ops H).
Defined.

(** ** After the feedback action *)

(** X14: when [createFeedback] settles the component navigates exactly once and
    changes no state: to the feedback page of the interview when the action
    reports success with a non-empty feedback id, and to the home route in
    every other case, a rejected action included. *)
Theorem feedback_settled_navigates_once env props w r :
  let '(w', tr) := step env props w (FeedbackSettled r) in
  let page := lit "/interview/" ++ interpolate (interviewId props) ++ lit "/feedback" in
  w' = w ∧ feedback_calls tr = [] ∧ starts tr = []
  ∧ ∃ href, navigations tr = [href]
            ∧ (href = page
               ↔ ∃ res id, r = Resolved res ∧ success res = true
                           ∧ result_feedbackId res = Some id ∧ id ≠ empty)
            ∧ (href ≠ page → href = lit "/").
Proof.
  pose proof (step_trace env props w (FeedbackSettled r)) as Htr.
  pose proof (step_agent env props w (FeedbackSettled r)) as Hag.
  pose proof (step_listeners env props w (FeedbackSettled r)) as Hl.
  destruct (step env props w (FeedbackSettled r)) as [w' tr].
  cbn [fst snd perform] in *. rewrite Hag in Htr. unfold rerender in Htr.
  rewrite bool_decide_eq_true_2, app_nil_r in Htr by done. subst tr.
  split; [destruct w, w'; simpl in *; congruence|].
  assert (lit "/" ≠ lit "/interview/" ++ interpolate (interviewId props)
                     ++ lit "/feedback") as Hhome by (by vm_compute).
  unfold handleGenerateFeedback_resume, feedback_saved.
  destruct r as [[[] [[|c id]|]]|err];
    cbn -[lit interpolate]; (split; [done|]); (split; [done|]); eexists;
    (split; [reflexivity|]);
    first
      [ split;
        [ split; [intros Heq; by destruct Hhome|];
          intros (res & id' & Hr & Hs & Hi & Hne); simplify_eq;
          cbn [success result_feedbackId] in *; simplify_eq;
          first [done | by destruct Hne]
        | done ]
      | split;
        [ split; [|done]; intros _; by eexists _, _
        | intros Hne; by destruct Hne ] ].
Qed.

(** ** What is on the screen *)

Lemma session_status_in_enum env props ops :
  status_in_enum (agent (session env props ops).1).
Proof.
  apply (session_invariant status_in_enum);
    [by intros v Hv s _ | by intros b s | apply status_in_enum_onMessage |].
  apply INACTIVE_in_enum.
Qed.

(** X17: in a session the button has one of three forms, fixed by the status: End
    when it is ACTIVE; Call with the dots as label and the ping shown when it
    is CONNECTING; Call with its name as label and the ping hidden when it is
    INACTIVE or FINISHED.  The dots never show without the ping. *)
Theorem button_follows_status env props ops :
  let s := agent (session env props ops).1 in
  (callStatus s = CallStatus.ACTIVE
   ∧ call_button (render props s) = DisconnectBtn)
  ∨ (callStatus s = CallStatus.CONNECTING
     ∧ call_button (render props s) = CallBtn false (lit ". . ."))
  ∨ ((callStatus s = CallStatus.INACTIVE ∨ callStatus s = CallStatus.FINISHED)
     ∧ call_button (render props s) = CallBtn true (lit "Call")).
Proof.
  cbv zeta. pose proof (session_status_in_enum env props ops) as Hs.
  unfold status_in_enum, CallStatus.values in Hs.
  rewrite !elem_of_cons, elem_of_nil in Hs. unfold render. cbn [call_button].
  destruct Hs as [Hs|[Hs|[Hs|[Hs|[]]]]]; rewrite Hs.
  - right. right. split; [by left | by vm_compute].
  - right. left. split; [done | by vm_compute].
  - left. split; [done | by vm_compute].
  - right. right. split; [by right | by vm_compute].
Qed.

(** X18: the transcript pane is absent exactly while the buffer is empty;
    otherwise it shows the content of the last buffered message, which has
    no white space at either end, under a key made of that content and the
    index of the message. *)
Theorem transcript_line_shows_last env props ops :
  let s := agent (session env props ops).1 in
  match transcript_line (render props s) with
  | None => messages s = []
  | Some line =>
      ∃ x, last (messages s) = Some x
           ∧ line_text line = content x
           ∧ trim (line_text line) = line_text line
           ∧ line_key line
             = content x ++ lit "-" ++ decimal (length (messages s) - 1)
  end.
Proof.
  cbv zeta. pose proof (session_contents_trimmed env props ops) as Ht.
  unfold render. cbn [transcript_line].
  destruct (messages (agent (session env props ops).1)) as [|y l] eqn:Hm.
  - by rewrite bool_decide_eq_false_2 by (simpl; lia).
  - rewrite bool_decide_eq_true_2 by (simpl; lia).
    destruct (last (y :: l)) as [x|] eqn:Hlast.
    + exists x. split_and!; try done. cbn [line_text].
      apply last_Some_elem_of in Hlast.
      by apply (proj1 (Forall_forall _ _) Ht).
    + by apply last_None in Hlast.
Qed.

(** ** The Navbar *)

(** X19: without a user the profile dropdown never opens and [signOut] is never
    called, whatever is clicked: the elements that would do it are not in the
    markup. *)
Theorem Navbar_no_user_no_sign_out ops : ∀ s,
  Navbar.feasible_from None s ops = true →
  Navbar.isProfileOpen (Navbar.run_from s ops).1 = Navbar.isProfileOpen s
  ∧ NavbarSpec.sign_outs (Navbar.run_from s ops).2 = [].
Proof.
  induction ops as [|op ops IH]; intros s Hf; [done|].
  cbn [Navbar.feasible_from] in Hf. apply andb_true_iff in Hf as [Hc Hf].
  specialize (IH _ Hf) as [IH1 IH2]. cbn [Navbar.run_from].
  destruct op as [| | | | |r]; try discriminate Hc;
    [| |destruct s as [p []]; try discriminate Hc|];
    cbn [Navbar.step] in *;
    destruct (Navbar.run_from _ ops) as [s2 c2]; cbn [fst snd] in *;
    unfold NavbarSpec.sign_outs in *; rewrite ?omap_app, IH1, IH2;
    try done; by destruct r.
Qed.

Lemma Navbar_no_user_no_sign_out_witness :
  Navbar.feasible_from None Navbar.initial
    [Navbar.ClickMenu; Navbar.ClickMobileLink; Navbar.ClickMenu] = true
  ∧ NavbarSpec.sign_outs
      (Navbar.run_from Navbar.initial
         [Navbar.ClickMenu; Navbar.ClickMobileLink; Navbar.ClickMenu]).2 = [].
Proof.
  split; [reflexivity|].
  exact (proj2 (Navbar_no_user_no_sign_out
                  [Navbar.ClickMenu; Navbar.ClickMobileLink; Navbar.ClickMenu]
                  Navbar.initial eq_refl)).
Defined.

(** X20: the Navbar calls [signOut] once per click on a Sign Out button, and it
    navigates only when [signOut] resolved: once to [/sign-in], followed by a
    refresh, for each resolved call, and never after a rejected one. *)
Theorem Navbar_sign_out_calls ops : ∀ s,
  NavbarSpec.sign_outs (Navbar.run_from s ops).2
  = replicate (NavbarSpec.count NavbarSpec.is_sign_out_click ops) ()
  ∧ NavbarSpec.pushes (Navbar.run_from s ops).2
    = replicate (NavbarSpec.count NavbarSpec.is_resolved ops) (lit "/sign-in")
  ∧ NavbarSpec.refreshes (Navbar.run_from s ops).2
    = replicate (NavbarSpec.count NavbarSpec.is_resolved ops) ().
Proof.
  induction ops as [|op ops IH]; intros s; [done|].
  cbn [Navbar.run_from NavbarSpec.count].
  destruct (Navbar.step s op) as [s1 c1] eqn:Hstep.
  specialize (IH s1) as (IH1 & IH2 & IH3).
  destruct (Navbar.run_from s1 ops) as [s2 c2]. cbn [fst snd] in *.
  unfold NavbarSpec.sign_outs, NavbarSpec.pushes, NavbarSpec.refreshes in *.
  rewrite !omap_app, IH1, IH2, IH3.
  destruct op as [| | | | |[[]|e]]; injection Hstep as <- <-; done.
Qed.
